(** * beian.py: company website and subsidiary lookup

    A shallow embedding of [src/beian.py] and the properties of its
    specification.

    Modelling conventions.
    - A Python [str] is a list of Unicode code points ([pystr]).  The
      digits of [str.isdigit] and of [float] are those of Unicode 14.0, the
      character database of CPython 3.11.
    - A value decoded by [response.json()] is a [json] tree: [JNull] is
      Python's [None], a [JObj] is a [dict] whose first binding of a key is
      the one a lookup finds.
    - A Python exception is a value of [exn]; a computation that may raise
      returns a [result].
    - The network, the [lru_cache] and the console are explicit state: every
      request is appended to a log, and the reply of the outside world may
      depend on how many requests were made before it.
    - The calls a thread pool runs are interleaved step by step as a
      scheduler decides; the properties hold for every scheduler. *)

From Stdlib Require Import ZArith List Bool Lia String Ascii Permutation Sorted.
Import ListNotations.
Open Scope list_scope.
Open Scope Z_scope.
Set Warnings "-register-all".

(** ** Python strings *)

Definition pystr := list Z.

Definition str (s : string) : pystr :=
  map (fun a => Z.of_N (N_of_ascii a)) (list_ascii_of_string s).

Definition pystr_eqb (a b : pystr) : bool :=
  if list_eq_dec Z.eq_dec a b then true else false.

Definition c_percent : Z := 37.
Definition c_dot : Z := 46.
Definition c_slash : Z := 47.

(** An ASCII digit. *)
Definition is_digit (c : Z) : bool := (48 <=? c) && (c <=? 57).

(** The code points [str.isdigit] accepts, as ranges: those of numeric type
    Digit or Decimal. *)
Definition digit_ranges : list (Z * Z) :=
  [
   (48, 57); (178, 179); (185, 185); (1632, 1641);
   (1776, 1785); (1984, 1993); (2406, 2415); (2534, 2543);
   (2662, 2671); (2790, 2799); (2918, 2927); (3046, 3055);
   (3174, 3183); (3302, 3311); (3430, 3439); (3558, 3567);
   (3664, 3673); (3792, 3801); (3872, 3881); (4160, 4169);
   (4240, 4249); (4969, 4977); (6112, 6121); (6160, 6169);
   (6470, 6479); (6608, 6618); (6784, 6793); (6800, 6809);
   (6992, 7001); (7088, 7097); (7232, 7241); (7248, 7257);
   (8304, 8304); (8308, 8313); (8320, 8329); (9312, 9320);
   (9332, 9340); (9352, 9360); (9450, 9450); (9461, 9469);
   (9471, 9471); (10102, 10110); (10112, 10120); (10122, 10130);
   (42528, 42537); (43216, 43225); (43264, 43273); (43472, 43481);
   (43504, 43513); (43600, 43609); (44016, 44025); (65296, 65305);
   (66720, 66729); (68160, 68163); (68912, 68921); (69216, 69224);
   (69714, 69722); (69734, 69743); (69872, 69881); (69942, 69951);
   (70096, 70105); (70384, 70393); (70736, 70745); (70864, 70873);
   (71248, 71257); (71360, 71369); (71472, 71481); (71904, 71913);
   (72016, 72025); (72784, 72793); (73040, 73049); (73120, 73129);
   (92768, 92777); (92864, 92873); (93008, 93017); (120782, 120831);
   (123200, 123209); (123632, 123641); (125264, 125273); (127232, 127242);
   (130032, 130041)].

(** [c.isdigit()] for one character. *)
Definition char_isdigit (c : Z) : bool :=
  existsb (fun r => (fst r <=? c) && (c <=? snd r)) digit_ranges.

(** The decimal digits, the characters [float] reads as digits: each entry
    is the code point of a zero, and the nine code points after it are the
    digits one to nine of the same script. *)
Definition decimal_starts : list Z :=
  [
   48; 1632; 1776; 1984; 2406; 2534; 2662; 2790;
   2918; 3046; 3174; 3302; 3430; 3558; 3664; 3792;
   3872; 4160; 4240; 6112; 6160; 6470; 6608; 6784;
   6800; 6992; 7088; 7232; 7248; 42528; 43216; 43264;
   43472; 43504; 43600; 44016; 65296; 66720; 68912; 69734;
   69872; 69942; 70096; 70384; 70736; 70864; 71248; 71360;
   71472; 71904; 72016; 72784; 73040; 73120; 92768; 92864;
   93008; 120782; 120792; 120802; 120812; 120822; 123200; 123632;
   125264; 130032].

(** The value of a decimal digit. *)
Definition decimal_value (c : Z) : option Z :=
  match List.find (fun z => (z <=? c) && (c <=? z + 9)) decimal_starts with
  | Some z => Some (c - z)
  | None => None
  end.

Definition is_decimal (c : Z) : bool :=
  match decimal_value c with
  | Some _ => true
  | None => false
  end.

(** [s.replace(c, "")]: every occurrence of the character is removed. *)
Definition remove_char (c : Z) (s : pystr) : pystr :=
  filter (fun x => negb (x =? c)) s.

(** [s.isdigit()]: at least one character, and all of them digits. *)
Definition isdigit (s : pystr) : bool :=
  match s with
  | [] => false
  | _ => forallb char_isdigit s
  end.

(** [s.startswith(p)]. *)
Fixpoint startswith (s p : pystr) {struct p} : bool :=
  match p, s with
  | [], _ => true
  | _ :: _, [] => false
  | a :: p', b :: s' => (a =? b) && startswith s' p'
  end.

(** [s.find(sub)]: the lowest index where [sub] occurs, or -1. *)
Fixpoint find_from (i : Z) (s sub : pystr) : Z :=
  if startswith s sub then i
  else match s with
       | [] => -1
       | _ :: s' => find_from (i + 1) s' sub
       end.

Definition find (s sub : pystr) : Z := find_from 0 s sub.

(** [s[a:a+n]] for [0 <= a]. *)
Definition slice (s : pystr) (a : Z) (n : nat) : pystr :=
  firstn n (skipn (Z.to_nat a) s).

(** ** Exceptions *)

Inductive exn : Type :=
  | RequestException
  | KeyError
  | IndexError
  | TypeError
  | AttributeError
  | ValueError
  | OverflowError
  | UnicodeEncodeError
  | OtherException.

Inductive result (A : Type) : Type :=
  | Ok (a : A)
  | Raise (e : exn).
Arguments Ok {A} a.
Arguments Raise {A} e.

Definition rbind {A B} (r : result A) (f : A -> result B) : result B :=
  match r with
  | Ok a => f a
  | Raise e => Raise e
  end.

Declare Scope res_scope.
Delimit Scope res_scope with res.
Notation "x <- r ;; k" := (rbind r (fun x => k))
  (at level 61, r at next level, right associativity) : res_scope.

(** ** Python floats

    A [float] is an IEEE 754 binary64 number: [FFinite m e] is the value
    [m * 2^e]. *)

Inductive pyfloat : Type :=
  | FFinite (m e : Z)
  | FInf (negative : bool)
  | FNan.

(** ** Decoded JSON values *)

Inductive json : Type :=
  | JNull
  | JBool (b : bool)
  | JInt (z : Z)
  | JFloat (f : pyfloat)
  | JStr (s : pystr)
  | JArr (l : list json)
  | JObj (kvs : list (pystr * json)).

(** [bool(v)]. *)
Definition truthy (v : json) : bool :=
  match v with
  | JNull => false
  | JBool b => b
  | JInt z => negb (z =? 0)
  | JFloat (FFinite m _) => negb (m =? 0)
  | JFloat _ => true
  | JStr s => match s with [] => false | _ => true end
  | JArr l => match l with [] => false | _ => true end
  | JObj kvs => match kvs with [] => false | _ => true end
  end.

Fixpoint assoc {V} (k : pystr) (kvs : list (pystr * V)) : option V :=
  match kvs with
  | [] => None
  | (k', v) :: rest => if pystr_eqb k k' then Some v else assoc k rest
  end.

(** [v[k]] for a string key. *)
Definition getitem (v : json) (k : pystr) : result json :=
  match v with
  | JObj kvs => match assoc k kvs with
                | Some x => Ok x
                | None => Raise KeyError
                end
  | _ => Raise TypeError
  end.

(** [v[0]]. *)
Definition getitem0 (v : json) : result json :=
  match v with
  | JArr (x :: _) => Ok x
  | JArr [] => Raise IndexError
  | JStr (c :: _) => Ok (JStr [c])
  | JStr [] => Raise IndexError
  | JObj _ => Raise KeyError
  | _ => Raise TypeError
  end.

(** [v.get(k, default)]: only a dict has the method. *)
Definition dict_get (v : json) (k : pystr) (default : json) : result json :=
  match v with
  | JObj kvs => match assoc k kvs with
                | Some x => Ok x
                | None => Ok default
                end
  | _ => Raise AttributeError
  end.

(** The sequence a [for] loop over [v] visits. *)
Definition iterate (v : json) : result (list json) :=
  match v with
  | JArr l => Ok l
  | JStr s => Ok (map (fun c => JStr [c]) s)
  | JObj kvs => Ok (map (fun kv => JStr (fst kv)) kvs)
  | _ => Raise TypeError
  end.

(** [v.replace(c, "")]: only a string has the method. *)
Definition str_replace (v : json) (c : Z) : result pystr :=
  match v with
  | JStr s => Ok (remove_char c s)
  | _ => Raise AttributeError
  end.

(** ** [float(s)] and [int(x)]

    [float] converts a decimal string to the nearest binary64 number, ties
    to even; a value too large for the format becomes infinity.  It reads
    the decimal digits of every script; a digit that is not decimal, such
    as a superscript two, is no number to it.  The only strings the program
    passes to [float] consist of digits and dots, so signs, exponents,
    blanks and underscores are not modelled: [py_float] raises [ValueError]
    on anything but decimal digits around at most one dot. *)

(** [n / (d * 2^e)] as a fraction of integers. *)
Definition scale (n d e : Z) : Z * Z :=
  if 0 <=? e then (n, d * 2 ^ e) else (n * 2 ^ (- e), d).

Definition round_half_even (num den : Z) : Z :=
  let q := num / den in
  let r := num mod den in
  if 2 * r <? den then q
  else if den <? 2 * r then q + 1
  else if Z.even q then q else q + 1.

(** The exponent at which [n / d] has a 53-bit significand, not below the
    exponent of the subnormal numbers. *)
Definition binary64_exponent (n d : Z) : Z :=
  let e1 := Z.log2 n - Z.log2 d - 52 in
  let '(num, den) := scale n d e1 in
  let e2 := if num <? 2 ^ 52 * den then e1 - 1 else e1 in
  Z.max e2 (-1074).

(** The binary64 number nearest to [n / d], for [0 <= n] and [0 < d]. *)
Definition round_binary64 (n d : Z) : pyfloat :=
  if n =? 0 then FFinite 0 0
  else
    let e := binary64_exponent n d in
    let '(num, den) := scale n d e in
    let m := round_half_even num den in
    if (971 <? e) || ((e =? 971) && (m =? 2 ^ 53)) then FInf false
    else FFinite m e.

Definition digit_of (c : Z) : Z :=
  match decimal_value c with
  | Some v => v
  | None => 0
  end.

Definition digits_val (s : pystr) : Z :=
  fold_left (fun acc c => 10 * acc + digit_of c) s 0.

(** The characters before the first dot, and those after it if there is
    one. *)
Fixpoint split_dot (s : pystr) : pystr * option pystr :=
  match s with
  | [] => ([], None)
  | c :: rest =>
      if c =? c_dot then ([], Some rest)
      else let '(a, b) := split_dot rest in (c :: a, b)
  end.

Definition py_float (s : pystr) : result pyfloat :=
  let '(int_part, rest) := split_dot s in
  let frac_part := match rest with Some f => f | None => [] end in
  if forallb is_decimal int_part && forallb is_decimal frac_part
     && negb (Nat.eqb (List.length (int_part ++ frac_part)) 0)
  then Ok (round_binary64 (digits_val (int_part ++ frac_part))
                          (10 ^ Z.of_nat (List.length frac_part)))
  else Raise ValueError.

(** [int(x)] truncates toward zero. *)
Definition py_int (x : pyfloat) : result Z :=
  match x with
  | FFinite m e =>
      Ok (if 0 <=? e then m * 2 ^ e else Z.quot m (2 ^ (- e)))
  | FInf _ => Raise OverflowError
  | FNan => Raise ValueError
  end.

(** ** query_equity_investment: the loop over the children *)

(** A child company: the dict built at lines 92-96.  The key ["website"] is
    added later by the caller; until then the field is [None]. *)
Record child : Type := mk_child {
  name : json;
  entid : json;
  funded_ratio : Z;
  website : option pystr
}.

(** One iteration of the loop at lines 87-96: the child to append, if any. *)
Definition equity_loop_body (threshold : Z) (c : json) : result (option child) :=
  (v <- dict_get c (str "fundedRatio") (JStr []) ;;
   funded_ratio_str <- str_replace v c_percent ;;
   if isdigit (remove_char c_dot funded_ratio_str) then
     x <- py_float funded_ratio_str ;;
     ratio <- py_int x ;;
     if threshold <=? ratio then
       n <- getitem c (str "entname") ;;
       i <- getitem c (str "entid") ;;
       Ok (Some (mk_child n i ratio None))
     else Ok None
   else Ok None)%res.

Fixpoint equity_loop (threshold : Z) (children : list json)
    (results : list child) : result (list child) :=
  match children with
  | [] => Ok results
  | c :: rest =>
      (r <- equity_loop_body threshold c ;;
       equity_loop threshold rest
         (match r with Some x => results ++ [x] | None => results end))%res
  end.

(** Lines 84-97, on the decoded response. *)
Definition equity_results (data : json) (threshold : Z) : result (list child) :=
  (success <- dict_get data (str "success") JNull ;;
   if truthy success then
     payload <- dict_get data (str "data") JNull ;;
     if truthy payload then
       d <- getitem data (str "data") ;;
       children <- dict_get d (str "children") (JArr []) ;;
       l <- iterate children ;;
       equity_loop threshold l []
     else Ok []
   else Ok [])%res.

(** ** The outside world and the state of a run *)

(** A request: the two POST bodies and the page URL, by the values they are
    built from.  [GetPage n i c] is the GET of
    [https://www.riskbird.com/ent/{quote(n)}.html?entid={i}]. *)
Inductive request : Type :=
  | PostSearch (search_key cookie : pystr)
  | PostEquity (ent_id : json) (cookie : pystr)
  | GetPage (ent_name : pystr) (ent_id : json) (cookie : pystr).

(** What the program does not control.  [post_json t r] is the outcome of
    [session.post], [raise_for_status] and [response.json()] for the request
    [r] issued after [t] earlier requests: [None] when one of them raises a
    [RequestException].  [get_text] is the same for [session.get] and
    [response.text].  [soup_find_a_href html] is
    [BeautifulSoup(html, "lxml").find("a", href=True)] followed by
    [["href"]]: the attribute of the first anchor that has one, [None] when
    there is none, or an exception.  Failures of the HTTP client that are
    not a [RequestException] are outside the model. *)
Record world : Type := mk_world {
  post_json : nat -> request -> option json;
  get_text : nat -> request -> option pystr;
  soup_find_a_href : pystr -> result (option pystr)
}.

(** The lines the program prints; the last four are lines 196-199. *)
Inductive message : Type :=
  | MsgEntRequestFailed
  | MsgNoEntData
  | MsgEntParseFailed (e : exn)
  | MsgEquityRequestFailed
  | MsgPageRequestFailed
  | MsgPageParseFailed (e : exn)
  | MsgChildrenFound (n : nat)
  | MsgChildError (child_name : json) (e : exn)
  | MsgReportHeader (parent : json) (threshold : Z)
  | MsgReportChild (idx : nat) (child_name : json)
  | MsgReportRatio (ratio : Z)
  | MsgReportWebsite (site : option pystr)
  | MsgReportRule.

Definition is_surrogate (c : Z) : bool := (55296 <=? c) && (c <=? 57343).

(** A value that cannot be printed when it is formatted into a line: a
    string with a surrogate code point.  Inside a list or a dict a string
    is shown escaped. *)
Definition unprintable_value (v : json) : bool :=
  match v with
  | JStr s => existsb is_surrogate s
  | _ => false
  end.

(** A line the console refuses.  The console encodes to UTF-8 and is
    strict, as Python sets it up: it takes every text but one with a
    surrogate code point.  The text of an exception is taken to be
    printable. *)
Definition unprintable (msg : message) : bool :=
  match msg with
  | MsgChildError child_name _ => unprintable_value child_name
  | MsgReportHeader parent _ => unprintable_value parent
  | MsgReportChild _ child_name => unprintable_value child_name
  | MsgReportWebsite (Some site) => existsb is_surrogate site
  | _ => false
  end.

Definition cache_key : Type := json * json * pystr.

Record state : Type := mk_state {
  log : list request;
  cache : list (cache_key * option pystr);
  console : list message
}.

Definition initial_state : state := mk_state [] [] [].

Definition M (A : Type) : Type := state -> result A * state.

Definition ret {A} (a : A) : M A := fun st => (Ok a, st).

Definition raise {A} (e : exn) : M A := fun st => (Raise e, st).

Definition bind {A B} (m : M A) (f : A -> M B) : M B :=
  fun st =>
    match m st with
    | (Ok a, st') => f a st'
    | (Raise e, st') => (Raise e, st')
    end.

Definition lift {A} (r : result A) : M A := fun st => (r, st).

(** [try: m  except <handled>: h]. *)
Definition try_except {A} (m : M A) (handled : exn -> bool)
    (h : exn -> M A) : M A :=
  fun st =>
    match m st with
    | (Ok a, st') => (Ok a, st')
    | (Raise e, st') => if handled e then h e st' else (Raise e, st')
    end.

Declare Scope m_scope.
Delimit Scope m_scope with M.
Notation "x <- m ;; k" := (bind m (fun x => k))
  (at level 61, m at next level, right associativity) : m_scope.
Notation "m ;; k" := (bind m (fun _ => k))
  (at level 61, right associativity) : m_scope.

(** [print]: the line is written, or UnicodeEncodeError is raised and
    nothing is written. *)
Definition print (msg : message) : M unit :=
  fun st =>
    if unprintable msg then (Raise UnicodeEncodeError, st)
    else (Ok tt, mk_state (log st) (cache st) (console st ++ [msg])).

Definition http_post (w : world) (r : request) : M (option json) :=
  fun st =>
    (Ok (post_json w (List.length (log st)) r),
     mk_state (log st ++ [r]) (cache st) (console st)).

Definition http_get (w : world) (r : request) : M (option pystr) :=
  fun st =>
    (Ok (get_text w (List.length (log st)) r),
     mk_state (log st ++ [r]) (cache st) (console st)).

(** ** get_ent_info *)

Definition key_or_index_error (e : exn) : bool :=
  match e with
  | KeyError | IndexError => true
  | _ => false
  end.

Definition get_ent_info (w : world) (search_key cookie : pystr)
    : M (option (json * json)) :=
  (response <- http_post w (PostSearch search_key cookie) ;;
   match response with
   | None => print MsgEntRequestFailed ;; ret None
   | Some data =>
       try_except
         (d <- lift (getitem data (str "data")) ;;
          ent_list <- lift (getitem d (str "list")) ;;
          if negb (truthy ent_list) then print MsgNoEntData ;; ret None
          else
            first_ent <- lift (getitem0 ent_list) ;;
            ent_name <- lift (getitem first_ent (str "entName")) ;;
            ent_id <- lift (getitem first_ent (str "entid")) ;;
            ret (Some (ent_name, ent_id)))
         key_or_index_error
         (fun e => print (MsgEntParseFailed e) ;; ret None)
   end)%M.

(** ** query_equity_investment *)

Definition query_equity_investment (w : world) (ent_id : json)
    (cookie : pystr) (threshold : Z) : M (list child) :=
  (response <- http_post w (PostEquity ent_id cookie) ;;
   match response with
   | None => print MsgEquityRequestFailed ;; ret []
   | Some data => lift (equity_results data threshold)
   end)%M.

(** ** get_official_website and its lru_cache *)

(** A list or a dict cannot be hashed. *)
Definition hashable (v : json) : bool :=
  match v with
  | JArr _ | JObj _ => false
  | _ => true
  end.

(** The number a bool, an int or a finite float stands for: [m * 2^e]. *)
Definition num_of (v : json) : option (Z * Z) :=
  match v with
  | JBool b => Some (if b then 1 else 0, 0)
  | JInt z => Some (z, 0)
  | JFloat (FFinite m e) => Some (m, e)
  | _ => None
  end.

Definition num_eqb (x y : Z * Z) : bool :=
  let '(m1, e1) := x in
  let '(m2, e2) := y in
  if e1 <=? e2 then m1 =? m2 * 2 ^ (e2 - e1) else m1 * 2 ^ (e1 - e2) =? m2.

(** [a == b] on hashable values. *)
Definition py_eqb (a b : json) : bool :=
  match a, b with
  | JNull, JNull => true
  | JStr s, JStr t => pystr_eqb s t
  | JFloat (FInf x), JFloat (FInf y) => Bool.eqb x y
  | _, _ =>
      match num_of a, num_of b with
      | Some x, Some y => num_eqb x y
      | _, _ => false
      end
  end.

Definition key_eqb (k1 k2 : cache_key) : bool :=
  let '(n1, i1, c1) := k1 in
  let '(n2, i2, c2) := k2 in
  py_eqb n1 n2 && py_eqb i1 i2 && pystr_eqb c1 c2.

Definition maxsize : nat := 128.

(** The entry stored under a key equal to [k], and the cache without it. *)
Fixpoint cache_find (k : cache_key) (c : list (cache_key * option pystr))
    : option ((cache_key * option pystr) * list (cache_key * option pystr)) :=
  match c with
  | [] => None
  | entry :: rest =>
      if key_eqb k (fst entry) then Some (entry, rest)
      else match cache_find k rest with
           | Some (found, rest') => Some (found, entry :: rest')
           | None => None
           end
  end.

(** A new entry becomes the most recent one; when the cache is full the
    least recent one is dropped. *)
Definition cache_store (entry : cache_key * option pystr)
    (c : list (cache_key * option pystr)) : list (cache_key * option pystr) :=
  if (List.length c <? maxsize)%nat then entry :: c
  else entry :: removelast c.

Definition marker : pystr := [23448; 32593; 65306; 32; 60; 100; 105; 118; 32].

(** [urllib.parse.quote]: a string is encoded to UTF-8 first, which fails on
    a surrogate code point; anything but a string is rejected.  The escaped
    text itself is not computed: the request records the name it is built
    from. *)
Definition quote (v : json) : result pystr :=
  match v with
  | JStr s => if existsb is_surrogate s then Raise UnicodeEncodeError else Ok s
  | _ => Raise TypeError
  end.

(** Lines 144-145. *)
Definition normalize_href (href : pystr) : pystr :=
  if startswith href (str "//") then str "http:" ++ href else href.

(** Lines 127-148: what is made of the outcome of the request. *)
Definition read_page (w : world) (response : option pystr)
    : M (option pystr) :=
  match response with
  | None => (print MsgPageRequestFailed ;; ret None)%M
  | Some html_text =>
      let start_index := find html_text marker in
      if start_index =? -1 then ret None
      else
        let relevant_html := slice html_text start_index 1000 in
        match soup_find_a_href w relevant_html with
        | Ok None => ret None
        | Ok (Some href) => ret (Some (normalize_href href))
        | Raise e => (print (MsgPageParseFailed e) ;; ret None)%M
        end
  end.

(** Lines 103-148: the function under the decorator. *)
Definition get_official_website_uncached (w : world) (ent_name ent_id : json)
    (cookie : pystr) : M (option pystr) :=
  (encoded_ent_name <- lift (quote ent_name) ;;
   response <- http_get w (GetPage encoded_ent_name ent_id cookie) ;;
   read_page w response)%M.

(** Line 100: [@lru_cache(maxsize=128)] keys the cache on the three
    arguments.  A hit makes the entry the most recent one; a call that
    raises stores nothing. *)
Definition get_official_website (w : world) (ent_name ent_id : json)
    (cookie : pystr) : M (option pystr) :=
  fun st =>
    if negb (hashable ent_name && hashable ent_id) then (Raise TypeError, st)
    else
      let key := (ent_name, ent_id, cookie) in
      match cache_find key (cache st) with
      | Some (entry, rest) =>
          (Ok (snd entry), mk_state (log st) (entry :: rest) (console st))
      | None =>
          match get_official_website_uncached w ent_name ent_id cookie st with
          | (Ok site, st') =>
              (Ok site,
               mk_state (log st') (cache_store (key, site) (cache st'))
                        (console st'))
          | (Raise e, st') => (Raise e, st')
          end
      end.

(** ** fetch_official_website *)

Record lookup_result : Type := mk_result {
  parent_name : json;
  official_website : option pystr;
  equity_investments : list child
}.

Definition set_website (c : child) (site : option pystr) : child :=
  mk_child (name c) (entid c) (funded_ratio c) site.

(** ** The thread pool (lines 172-176)

    Every child is a job of the pool: a call of [get_official_website] with
    the child's name and identifier.  Under the decorator a call goes
    through three steps, and the steps of different calls interleave: the
    cache is asked (a hit returns at once, a miss goes on to quote the
    name); the page is requested; the page is read and the result stored,
    unless a call with an equal key has stored one in the meantime. *)

Inductive phase : Type :=
  | Queued
  | Fetching (encoded_ent_name : pystr)
  | Fetched (response : option pystr)
  | Returned (r : result (option pystr)).

Definition job : Type := child * phase.

Definition lookup_step (c : child) (cookie : pystr) (st : state)
    : (result (option pystr) + pystr) * state :=
  if negb (hashable (name c) && hashable (entid c))
  then (inl (Raise TypeError), st)
  else
    match cache_find (name c, entid c, cookie) (cache st) with
    | Some (entry, rest) =>
        (inl (Ok (snd entry)), mk_state (log st) (entry :: rest) (console st))
    | None =>
        match quote (name c) with
        | Ok encoded_ent_name => (inr encoded_ent_name, st)
        | Raise e => (inl (Raise e), st)
        end
    end.

Definition request_step (w : world) (c : child) (cookie : pystr)
    (encoded_ent_name : pystr) (st : state) : option pystr * state :=
  (get_text w (List.length (log st))
     (GetPage encoded_ent_name (entid c) cookie),
   mk_state (log st ++ [GetPage encoded_ent_name (entid c) cookie])
            (cache st) (console st)).

Definition store_step (w : world) (c : child) (cookie : pystr)
    (response : option pystr) (st : state)
    : result (option pystr) * state :=
  match read_page w response st with
  | (Ok site, st') =>
      (Ok site,
       match cache_find (name c, entid c, cookie) (cache st') with
       | Some _ => st'
       | None =>
           mk_state (log st')
                    (cache_store ((name c, entid c, cookie), site) (cache st'))
                    (console st')
       end)
  | (Raise e, st') => (Raise e, st')
  end.

(** The next step of a job. *)
Definition worker_step (w : world) (cookie : pystr) (j : job) (st : state)
    : job * state :=
  match snd j with
  | Queued =>
      match lookup_step (fst j) cookie st with
      | (inl r, st') => ((fst j, Returned r), st')
      | (inr encoded_ent_name, st') => ((fst j, Fetching encoded_ent_name), st')
      end
  | Fetching encoded_ent_name =>
      let '(response, st') :=
        request_step w (fst j) cookie encoded_ent_name st in
      ((fst j, Fetched response), st')
  | Fetched response =>
      let '(r, st') := store_step w (fst j) cookie response st in
      ((fst j, Returned r), st')
  | Returned _ => (j, st)
  end.

Definition queued (j : job) : bool :=
  match snd j with
  | Queued => true
  | _ => false
  end.

(** A job a worker is busy with. *)
Definition in_flight (j : job) : bool :=
  match snd j with
  | Fetching _ | Fetched _ => true
  | _ => false
  end.

(** Whether the job [j], submitted after [before] and ahead of [after], may
    take a step: a queued job starts when the jobs before it have started
    and a worker is free; a job that has returned does nothing more. *)
Definition may_step (max_workers : Z) (before : list job) (j : job)
    (after : list job) : bool :=
  match snd j with
  | Queued =>
      forallb (fun x => negb (queued x)) before
      && (Z.of_nat (List.length (filter in_flight (before ++ after)))
          <? max_workers)
  | Returned _ => false
  | _ => true
  end.

(** The job number [pick] takes a step if it may. *)
Fixpoint pool_step (w : world) (cookie : pystr) (max_workers : Z)
    (before jobs : list job) (pick : nat) (st : state) : list job * state :=
  match jobs with
  | [] => (before, st)
  | j :: after =>
      match pick with
      | O =>
          if may_step max_workers before j after then
            let '(j', st') := worker_step w cookie j st in
            (before ++ j' :: after, st')
          else (before ++ j :: after, st)
      | S pick' =>
          pool_step w cookie max_workers (before ++ [j]) after pick' st
      end
  end.

Fixpoint run_picks (w : world) (cookie : pystr) (max_workers : Z)
    (picks : list nat) (jobs : list job) (st : state) : list job * state :=
  match picks with
  | [] => (jobs, st)
  | pick :: rest =>
      let '(jobs', st') := pool_step w cookie max_workers [] jobs pick st in
      run_picks w cookie max_workers rest jobs' st'
  end.

(** A job run to its end without interruption. *)
Definition complete (w : world) (cookie : pystr) (j : job) (st : state)
    : result (option pystr) * state :=
  match snd j with
  | Queued =>
      match lookup_step (fst j) cookie st with
      | (inl r, st1) => (r, st1)
      | (inr encoded_ent_name, st1) =>
          let '(response, st2) :=
            request_step w (fst j) cookie encoded_ent_name st1 in
          store_step w (fst j) cookie response st2
      end
  | Fetching encoded_ent_name =>
      let '(response, st1) :=
        request_step w (fst j) cookie encoded_ent_name st in
      store_step w (fst j) cookie response st1
  | Fetched response => store_step w (fst j) cookie response st
  | Returned r => (r, st)
  end.

(** The pool is left only when every job is done (the end of the [with]
    block): the jobs still open are run to their end, in the order of
    submission. *)
Fixpoint drain (w : world) (cookie : pystr) (jobs : list job) (st : state)
    : list (child * result (option pystr)) * state :=
  match jobs with
  | [] => ([], st)
  | j :: rest =>
      let '(r, st1) := complete w cookie j st in
      let '(done, st2) := drain w cookie rest st1 in
      ((fst j, r) :: done, st2)
  end.

(** The children are submitted in their order; [picks] says which job takes
    the next step, time after time.  Every interleaving of the calls that a
    pool of [max_workers] threads allows is the run of some [picks]. *)
Definition run_pool (w : world) (cookie : pystr) (max_workers : Z)
    (picks : list nat) (children : list child) (st : state)
    : list (child * result (option pystr)) * state :=
  let '(jobs, st1) :=
    run_picks w cookie max_workers picks
      (map (fun c => (c, Queued)) children) st in
  drain w cookie jobs st1.

(** What the pool decides and the program does not: how the calls
    interleave, and in which order [as_completed] hands over the futures
    (the futures that are done when it is called in no particular order,
    the others as they complete).  Both may differ from one pool to the
    next: they depend on the number of requests sent before the pool
    starts. *)
Record scheduler : Type := mk_scheduler {
  interleaving : nat -> list nat;
  yield_order : nat -> forall A : Type, list A -> list A
}.

(** The calls run one after the other and are handed over in the order of
    submission. *)
Definition in_order : scheduler :=
  mk_scheduler (fun _ => []) (fun _ A l => l).

(** The same calls, handed over last first. *)
Definition reversed : scheduler :=
  mk_scheduler (fun _ => []) (fun _ A l => rev l).

(** Lines 172-178: the futures, in the order in which [as_completed] yields
    them. *)
Definition thread_pool (w : world) (schedule : scheduler) (cookie : pystr)
    (max_workers : Z) (child_companies : list child)
    : M (list (child * result (option pystr))) :=
  fun st =>
    let start := List.length (log st) in
    let '(futures, st') :=
      run_pool w cookie max_workers (interleaving schedule start)
        child_companies st in
    (Ok (yield_order schedule start _ futures), st').

(** Lines 178-187: each future's result, or its exception, is written into
    its child.  The lines this loop prints are put after those of the
    workers; how the two interleave on the console is not modelled. *)
Fixpoint as_completed (completed : list (child * result (option pystr)))
    (equity_investments : list child) : M (list child) :=
  match completed with
  | [] => ret equity_investments
  | (c, r) :: rest =>
      (x <- match r with
            | Ok site => ret (set_website c site)
            | Raise e =>
                print (MsgChildError (name c) e) ;; ret (set_website c None)
            end ;;
       as_completed rest (equity_investments ++ [x]))%M
  end.

(** [list.sort(key=..., reverse=True)]: a stable sort, largest key first. *)
Fixpoint insert_desc (x : child) (l : list child) : list child :=
  match l with
  | [] => [x]
  | y :: l' =>
      if funded_ratio x <? funded_ratio y then y :: insert_desc x l'
      else x :: y :: l'
  end.

Definition sort_desc (l : list child) : list child :=
  fold_right insert_desc [] l.

(** Lines 195-199. *)
Fixpoint print_children (idx : nat) (l : list child) : M unit :=
  match l with
  | [] => ret tt
  | c :: rest =>
      (print (MsgReportChild idx (name c)) ;;
       print (MsgReportRatio (funded_ratio c)) ;;
       print (MsgReportWebsite (website c)) ;;
       print MsgReportRule ;;
       print_children (S idx) rest)%M
  end.

(** Lines 168-199, for a non-empty [child_companies].
    [ThreadPoolExecutor] refuses a pool without workers. *)
Definition fetch_children_websites (w : world)
    (schedule : scheduler) (cookie : pystr)
    (parent_name : json) (threshold : Z) (max_workers : Z)
    (child_companies : list child) : M (list child) :=
  (print (MsgChildrenFound (List.length child_companies)) ;;
   (if max_workers <=? 0 then raise ValueError else ret tt) ;;
   futures <- thread_pool w schedule cookie max_workers child_companies ;;
   collected <- as_completed futures [] ;;
   let sorted := sort_desc collected in
   match sorted with
   | [] => ret tt
   | _ :: _ =>
       print (MsgReportHeader parent_name threshold) ;;
       print_children 1 sorted
   end ;;
   ret sorted)%M.

(** Lines 164-199. *)
Definition fetch_equity_investments (w : world)
    (schedule : scheduler) (cookie : pystr)
    (parent_name parent_id : json) (equity_threshold : option Z)
    (max_workers : Z) : M (list child) :=
  match equity_threshold with
  | Some threshold =>
      if (0 <=? threshold) && (threshold <=? 100) then
        (child_companies <-
           query_equity_investment w parent_id cookie threshold ;;
         match child_companies with
         | [] => ret []
         | _ :: _ =>
             fetch_children_websites w schedule cookie parent_name threshold
               max_workers child_companies
         end)%M
      else ret []
  | None => ret []
  end.

Definition fetch_official_website (w : world)
    (schedule : scheduler) (search_key cookie : pystr)
    (equity_threshold : option Z) (max_workers : Z) : M lookup_result :=
  (ent_info <- get_ent_info w search_key cookie ;;
   match ent_info with
   | None => ret (mk_result JNull None [])
   | Some (parent_name, parent_id) =>
       official_website <- get_official_website w parent_name parent_id cookie ;;
       equity_investments <-
         fetch_equity_investments w schedule cookie parent_name parent_id
           equity_threshold max_workers ;;
       ret (mk_result parent_name official_website equity_investments)
   end)%M.

(** ** save_to_csv and the main loop *)

Inductive cell : Type :=
  | CText (s : pystr)
  | CInt (z : Z)
  | CValue (v : json).

Definition row : Type := list cell.

Definition fieldnames : row :=
  [CText [21333; 20301; 21517; 31216];
   CText [23448; 32593; 22320; 22336];
   CText [32929; 26435]].

(** [x or ""]. *)
Definition or_empty (x : option pystr) : pystr :=
  match x with
  | Some s => s
  | None => []
  end.

Definition parent_row (r : lookup_result) : row :=
  [CValue (parent_name r); CText (or_empty (official_website r)); CText []].

Definition child_row (c : child) : row :=
  [CValue (name c); CText (or_empty (website c)); CInt (funded_ratio c)].

Definition result_rows (r : lookup_result) : list row :=
  parent_row r :: map child_row (equity_investments r).

(** The rows [save_to_csv] hands to the writer, the header first; how the
    writer encodes them into the file is not modelled. *)
Definition save_to_csv (results : list lookup_result) : list row :=
  fieldnames :: flat_map result_rows results.

(** Lines 261-269. *)
Fixpoint main_loop (w : world) (schedule : scheduler)
    (cookie : pystr) (equity : Z) (threads : Z) (search_keys : list pystr)
    (all_results : list lookup_result) : M (list lookup_result) :=
  match search_keys with
  | [] => ret all_results
  | search_key :: rest =>
      (r <- fetch_official_website w schedule search_key cookie
              (Some equity) threads ;;
       main_loop w schedule cookie equity threads rest (all_results ++ [r]))%M
  end.

(** Lines 261-279: the rows written for a list of search keys. *)
Definition main (w : world) (schedule : scheduler)
    (cookie : pystr) (equity : Z) (threads : Z) (search_keys : list pystr)
    : M (list row) :=
  (all_results <- main_loop w schedule cookie equity threads search_keys [] ;;
   ret (save_to_csv all_results))%M.

(** ** Vocabulary of the specification *)









(** A child entry of the graph response. *)
Definition child_json (n i ratio : json) : json :=
  JObj [(str "entname", n); (str "entid", i); (str "fundedRatio", ratio)].



(** What identifies a child in the response: everything but the website. *)
Definition ident (c : child) : json * json * Z :=
  (name c, entid c, funded_ratio c).



Definition is_equity_request (r : request) : bool :=
  match r with
  | PostEquity _ _ => true
  | _ => false
  end.

Definition is_page_request_for (n : pystr) (r : request) : bool :=
  match r with
  | GetPage n' _ _ => pystr_eqb n n'
  | _ => false
  end.

Definition is_child_error (m : message) : bool :=
  match m with
  | MsgChildError _ _ => true
  | _ => false
  end.

(** A name the extractor can take: a string without surrogate code points. *)
Definition encodable_name (v : json) : bool :=
  match v with
  | JStr s => negb (existsb is_surrogate s)
  | _ => false
  end.

(** The calls a run is made of: the three requests, and a pool that runs
    the extractor for a list of children under some interleaving. *)
Inductive call : Type :=
  | CallEntInfo (search_key cookie : pystr)
  | CallEquity (ent_id : json) (cookie : pystr) (threshold : Z)
  | CallWebsite (ent_name ent_id : json) (cookie : pystr)
  | CallPool (children : list child) (cookie : pystr) (max_workers : Z)
             (picks : list nat).

Definition run_call (w : world) (c : call) (st : state) : state :=
  match c with
  | CallEntInfo k c => snd (get_ent_info w k c st)
  | CallEquity i c t => snd (query_equity_investment w i c t st)
  | CallWebsite n i c => snd (get_official_website w n i c st)
  | CallPool children c max_workers picks =>
      snd (run_pool w c max_workers picks children st)
  end.

Definition run_calls (w : world) (calls : list call) (st : state) : state :=
  fold_left (fun s c => run_call w c s) calls st.

(** The number of extractor calls among them. *)
Definition extractor_calls (c : call) : nat :=
  match c with
  | CallWebsite _ _ _ => 1
  | CallPool children _ _ _ => List.length children
  | _ => 0
  end.

Definition website_calls (calls : list call) : nat :=
  list_sum (map extractor_calls calls).

(** ** The futures of a pool *)

Definition future : Type := child * result (option pystr).

(** What the collector writes into the child of a future. *)
Definition recorded (f : future) : child :=
  set_website (fst f)
    (match snd f with Ok site => site | Raise _ => None end).

(** The error line of a future that raised, if any. *)
Definition error_lines (completed : list future) : list message :=
  flat_map (fun f => match snd f with
                     | Raise e => [MsgChildError (name (fst f)) e]
                     | Ok _ => []
                     end) completed.

(** The collector can print what it has to say about the future. *)
Definition collectable (f : future) : bool :=
  match snd f with
  | Raise _ => negb (unprintable_value (name (fst f)))
  | Ok _ => true
  end.

(** The report can print the lines of the child. *)
Definition reportable (c : child) : bool :=
  negb (unprintable_value (name c))
  && match website c with
     | Some site => negb (existsb is_surrogate site)
     | None => true
     end.

(** Everything the fan-out prints for these futures can be printed. *)
Definition printable (parent : json) (yielded : list future) : bool :=
  negb (unprintable_value parent)
  && forallb collectable yielded
  && forallb reportable (map recorded yielded).

(** The state in which the pool starts: the number of children has been
    announced. *)
Definition announced (n : nat) (st : state) : state :=
  mk_state (log st) (cache st) (console st ++ [MsgChildrenFound n]).

Definition returned (j : job) : bool :=
  match snd j with
  | Returned _ => true
  | _ => false
  end.

(** The jobs that have not returned yet. *)
Definition open_jobs (jobs : list job) : nat :=
  List.length (filter (fun j => negb (returned j)) jobs).

(** The jobs that have not sent their request yet. *)
Definition unsent (j : job) : bool :=
  match snd j with
  | Queued | Fetching _ => true
  | _ => false
  end.

(** The job of a future. *)
Definition finished (f : future) : job := (fst f, Returned (snd f)).

(** A child whose name and identifier the extractor can take. *)
Definition well_named (c : child) : bool :=
  encodable_name (name c) && hashable (entid c).

(** The steps a job can take: none when it has returned; from the queue,
    an exception raised before the request (only for a name or identifier
    the extractor cannot take), a hit in the cache, or a miss; the request;
    and the reading of the page, whose result is stored unless the key has
    been stored in the meantime. *)
Inductive stepped (w : world) (cookie : pystr)
    : job -> state -> job -> state -> Prop :=
  | step_none c r st :
      stepped w cookie (c, Returned r) st (c, Returned r) st
  | step_raise c e st :
      well_named c = false ->
      stepped w cookie (c, Queued) st (c, Returned (Raise e)) st
  | step_hit c st entry rest :
      cache_find (name c, entid c, cookie) (cache st) = Some (entry, rest) ->
      stepped w cookie (c, Queued) st (c, Returned (Ok (snd entry)))
        (mk_state (log st) (entry :: rest) (console st))
  | step_miss c s st :
      hashable (name c) = true -> hashable (entid c) = true ->
      cache_find (name c, entid c, cookie) (cache st) = None ->
      quote (name c) = Ok s ->
      stepped w cookie (c, Queued) st (c, Fetching s) st
  | step_request c s st :
      stepped w cookie (c, Fetching s) st
        (c, Fetched (get_text w (List.length (log st))
                       (GetPage s (entid c) cookie)))
        (mk_state (log st ++ [GetPage s (entid c) cookie])
                  (cache st) (console st))
  | step_store c response site st lines cache' :
      fst (read_page w response st) = Ok site ->
      filter is_child_error lines = [] ->
      cache' = cache st
      \/ cache_find (name c, entid c, cookie) (cache st) = None
         /\ cache' = cache_store ((name c, entid c, cookie), site) (cache st) ->
      stepped w cookie (c, Fetched response) st (c, Returned (Ok site))
        (mk_state (log st) cache' (console st ++ lines)).


(** The child is the entity of this name and identifier. *)
Definition same_entity (n i : pystr) (c : child) : bool :=
  match name c, entid c with
  | JStr n', JStr i' => pystr_eqb n n' && pystr_eqb i i'
  | _, _ => false
  end.

(** The children that are other entities, and the jobs for them that have
    not returned yet. *)
Definition others (n i : pystr) (children : list child) : nat :=
  List.length (filter (fun c => negb (same_entity n i c)) children).

Definition open_others (n i : pystr) (jobs : list job) : nat :=
  List.length
    (filter (fun j => negb (returned j) && negb (same_entity n i (fst j)))
       jobs).

(** A computation that sends no request, leaves the cache alone and
    reports no child error. *)
Definition quiet {A} (m : M A) : Prop :=
  forall st,
    log (snd (m st)) = log st
    /\ cache (snd (m st)) = cache st
    /\ filter is_child_error (console (snd (m st)))
       = filter is_child_error (console st).

(** Where the cache holds an entry for [k]: the number of more recent
    entries, and the stored website. *)
Fixpoint hit (k : cache_key) (c : list (cache_key * option pystr))
    : option (nat * option pystr) :=
  match c with
  | [] => None
  | x :: c' =>
      if key_eqb k (fst x) then Some (0%nat, snd x)
      else match hit k c' with
           | Some (p, v) => Some (S p, v)
           | None => None
           end
  end.

(** ** Worlds for the examples *)

Definition search_reply (ent_name ent_id : json) : json :=
  JObj [(str "data",
         JObj [(str "list",
                JArr [JObj [(str "entName", ent_name);
                            (str "entid", ent_id)]])])].

Definition equity_reply (children : list json) : json :=
  JObj [(str "success", JBool true);
        (str "data", JObj [(str "children", JArr children)])].

(** A registry that knows one parent, ["P"], with the given children, and
    whose pages cannot be fetched. *)
Definition registry (children : list json) : world :=
  mk_world
    (fun _ r =>
       match r with
       | PostSearch _ _ => Some (search_reply (JStr (str "P")) (JStr (str "0")))
       | PostEquity _ _ => Some (equity_reply children)
       | GetPage _ _ _ => None
       end)
    (fun _ _ => None)
    (fun _ => Ok None).

(** A registry whose search finds nothing. *)
Definition empty_registry : world :=
  mk_world
    (fun _ _ => Some (JObj [(str "data", JObj [(str "list", JArr [])])]))
    (fun _ _ => None)
    (fun _ => Ok None).

(** A registry whose search answers with a null payload. *)
Definition null_registry : world :=
  mk_world
    (fun _ _ => Some (JObj [(str "code", JInt 401); (str "data", JNull)]))
    (fun _ _ => None)
    (fun _ => Ok None).

(** A site whose pages change with every request: the page served to the
    request number [t] links to the address made of the single character
    [t]. *)
Definition changing_site : world :=
  mk_world
    (fun _ _ => None)
    (fun t _ => Some (marker ++ [Z.of_nat t]))
    (fun html => Ok (Some (skipn (List.length marker) html))).

Definition company (i : nat) : json := JStr [1000 + Z.of_nat i].

Definition other_companies : list call :=
  map (fun i => CallWebsite (company i) (JStr (str "id")) (str "c"))
      (seq 1 128).

(** Three children of ["P"] as the graph response lists them, and the
    records the query makes of them. *)
Definition entry_a : json :=
  child_json (JStr (str "A")) (JStr (str "1")) (JStr (str "50%")).
Definition entry_b : json :=
  child_json (JStr (str "B")) (JStr (str "2")) (JStr (str "50%")).
Definition entry_c : json :=
  child_json (JStr (str "C")) (JStr (str "3")) (JStr (str "70.5%")).

Definition record_a : child := mk_child (JStr (str "A")) (JStr (str "1")) 50 None.
Definition record_b : child := mk_child (JStr (str "B")) (JStr (str "2")) 50 None.
Definition record_c : child := mk_child (JStr (str "C")) (JStr (str "3")) 70 None.

(** A child whose percentage has two dots, one without a name, and one
    whose name is null. *)
Definition entry_two_dots : json :=
  child_json (JStr (str "A")) (JStr (str "1")) (JStr (str "1.2.3")).
Definition entry_nameless : json :=
  JObj [(str "entid", JStr (str "1")); (str "fundedRatio", JStr (str "60%"))].

(** Two children with one name and identifier. *)
Definition twin : child := mk_child (company 0) (JStr (str "id")) 50 None.




Definition entry_fullwidth : json :=
  child_json (JStr (str "A")) (JStr (str "1")) (JStr [65301; 65296; 37]).

(** A pool of two workers whose two calls take their steps in turn. *)
Definition in_turn : scheduler :=
  mk_scheduler (fun _ => [0; 1; 0; 1; 0; 1]%nat) (fun _ A l => l).


(** ** The entry point (lines 230-280) *)

(** [c.isspace()]: the characters [str.strip()] removes. *)
Definition is_space (c : Z) : bool :=
  ((9 <=? c) && (c <=? 13)) || ((28 <=? c) && (c <=? 32))
  || (c =? 133) || (c =? 160) || (c =? 5760)
  || ((8192 <=? c) && (c <=? 8202))
  || (c =? 8232) || (c =? 8233) || (c =? 8239) || (c =? 8287)
  || (c =? 12288).

Fixpoint lstrip (s : pystr) : pystr :=
  match s with
  | [] => []
  | c :: rest => if is_space c then lstrip rest else s
  end.

(** [s.strip()]. *)
Definition strip (s : pystr) : pystr := rev (lstrip (rev (lstrip s))).

(** What a file opened in text mode hands over: a carriage return, alone
    or before a line feed, reads as one line feed. *)
Fixpoint universal_newlines (s : pystr) : pystr :=
  match s with
  | [] => []
  | c :: rest =>
      if c =? 13 then
        match rest with
        | 10 :: rest' => 10 :: universal_newlines rest'
        | _ => 10 :: universal_newlines rest
        end
      else c :: universal_newlines rest
  end.

(** The lines of a text, each with its line feed; [cur] is the line begun
    so far. *)
Fixpoint lines_from (cur : pystr) (s : pystr) : list pystr :=
  match s with
  | [] => match cur with [] => [] | _ :: _ => [cur] end
  | c :: rest =>
      if c =? 10 then (cur ++ [c]) :: lines_from [] rest
      else lines_from (cur ++ [c]) rest
  end.

(** [file.readlines()] on a file with the given content. *)
Definition readlines (content : pystr) : list pystr :=
  lines_from [] (universal_newlines content).

Definition nonempty (s : pystr) : bool :=
  match s with
  | [] => false
  | _ :: _ => true
  end.

(** Line 254. *)
Definition read_search_keys (content : pystr) : list pystr :=
  map strip (filter (fun line => nonempty (strip line)) (readlines content)).

(** The parsed command line. *)
Record arguments : Type := mk_arguments {
  arg_search : option pystr;
  arg_file : option pystr;
  arg_equity : Z;
  arg_threads : Z;
  arg_output : option pystr
}.

(** The truth value of an optional string argument. *)
Definition given (o : option pystr) : bool :=
  match o with
  | Some (_ :: _) => true
  | _ => false
  end.

(** The value of an argument that was given. *)
Definition arg_value (o : option pystr) : pystr :=
  match o with
  | Some s => s
  | None => []
  end.

Inductive exit_message : Type :=
  | MsgNoInput
  | MsgNoConfig
  | MsgNoFile (path : pystr).

(** How the program ends: normally, by [sys.exit] with a message, or by an
    exception nothing catches. *)
Inductive outcome (A : Type) : Type :=
  | Finished (a : A)
  | Exited (code : Z) (why : exit_message)
  | Crashed (e : exn).
Arguments Finished {A} a.
Arguments Exited {A} code why.
Arguments Crashed {A} e.

(** Lines 240-259: the credential and the search keys.  [files path] is the
    text of the file at [path], [None] when [open] raises
    [FileNotFoundError]; other failures of the file system are outside the
    model. *)
Definition startup (files : pystr -> option pystr) (a : arguments)
    : outcome (pystr * list pystr) :=
  if negb (given (arg_search a)) && negb (given (arg_file a))
  then Exited 1 MsgNoInput
  else
    match files (str "config.txt") with
    | None => Exited 1 MsgNoConfig
    | Some config =>
        let user_cookie := strip (universal_newlines config) in
        if given (arg_file a) then
          match files (arg_value (arg_file a)) with
          | None => Exited 1 (MsgNoFile (arg_value (arg_file a)))
          | Some text => Finished (user_cookie, read_search_keys text)
          end
        else Finished (user_cookie, [arg_value (arg_search a)])
    end.

(** Lines 230-280: where the report goes and its rows.  [default_path] is
    the timestamped path under [res] that is used when no output path is
    given. *)
Definition run (files : pystr -> option pystr) (w : world)
    (schedule : scheduler) (default_path : pystr)
    (a : arguments) : state -> outcome (pystr * list row) * state :=
  fun st =>
    match startup files a with
    | Exited code why => (Exited code why, st)
    | Crashed e => (Crashed e, st)
    | Finished (user_cookie, search_keys) =>
        match main w schedule user_cookie (arg_equity a) (arg_threads a)
                search_keys st with
        | (Ok rows, st') =>
            (Finished (if given (arg_output a) then arg_value (arg_output a)
                       else default_path, rows), st')
        | (Raise e, st') => (Crashed e, st')
        end
    end.

(** ** Further vocabulary *)

Definition is_search_request (r : request) : bool :=
  match r with
  | PostSearch _ _ => true
  | _ => false
  end.

Definition is_page_request (r : request) : bool :=
  match r with
  | GetPage _ _ _ => true
  | _ => false
  end.

Definition is_newline (c : Z) : bool := (c =? 10) || (c =? 13).

(** A search key as a file can hold it on a line of its own: not empty, no
    blank at either end, no line break inside. *)
Definition clean_key (k : pystr) : bool :=
  nonempty k && negb (is_space (hd 0 k)) && negb (is_space (last k 0))
  && forallb (fun c => negb (is_newline c)) k.

(** The text of a file with one key per line. *)
Definition one_per_line (keys : list pystr) : pystr :=
  flat_map (fun k => k ++ [10]) keys.

(** The window of a page the parser is given: it starts with the marker
    and has at most 1000 characters. *)
Definition is_window (html : pystr) : bool :=
  startswith html marker && (List.length html <=? 1000)%nat.

(** The number of child rows of a list of results. *)
Definition total_children (results : list lookup_result) : nat :=
  list_sum (map (fun r => List.length (equity_investments r)) results).

(** [d.get(k)] on the bindings of a dict. *)
Definition field (kvs : list (pystr * json)) (k : pystr) : json :=
  match assoc k kvs with
  | Some v => v
  | None => JNull
  end.

(** No website in the cache starts with two slashes. *)
Definition no_protocol_relative (c : list (cache_key * option pystr)) : Prop :=
  Forall (fun entry =>
            match snd entry with
            | Some site => startswith site (str "//") = false
            | None => True
            end) c.

(** From [st] to [st'] requests were sent, none of them a search. *)
Definition sends_no_search (st st' : state) : Prop :=
  exists reqs,
    log st' = log st ++ reqs
    /\ forallb (fun r => negb (is_search_request r)) reqs = true.

(** * Properties *)

(** ** Truncating a rounded decimal *)

Lemma round_half_even_bounds num den :
  0 <= num -> 0 < den ->
  let m := round_half_even num den in
  num / den <= m <= num / den + 1 /\ (m = num / den + 1 -> den <= 2 * (num mod den)).
Proof.
  intros Hn Hd. unfold round_half_even. cbv zeta.
  destruct (2 * (num mod den) <? den) eqn:E1.
  - split; [lia|]. intros; lia.
  - apply Z.ltb_ge in E1.
    destruct (den <? 2 * (num mod den)) eqn:E2.
    + split; [lia|]. intros; lia.
    + destruct (Z.even (num / den)); (split; [lia|intros; lia]).
Qed.



(** ** The ownership percentage *)

Lemma is_digit_range c : is_digit c = true <-> 48 <= c <= 57.
Proof. unfold is_digit. rewrite andb_true_iff, !Z.leb_le. tauto. Qed.

(** The decimal digits come in blocks of ten; the value of a digit is its
    place in its block. *)
Lemma decimal_value_block c v :
  decimal_value c = Some v ->
  exists z, In z decimal_starts /\ z <= c <= z + 9 /\ v = c - z.
Proof.
  unfold decimal_value.
  destruct (List.find (fun z => (z <=? c) && (c <=? z + 9)) decimal_starts)
    as [z|] eqn:E; [|discriminate].
  intros H. injection H as <-. apply find_some in E as [Hin Hz].
  apply andb_true_iff in Hz as [H1 H2]. apply Z.leb_le in H1, H2.
  exists z. repeat split; assumption.
Qed.

Lemma decimal_value_range c v : decimal_value c = Some v -> 0 <= v <= 9.
Proof. intros H. apply decimal_value_block in H as (z & _ & Hz & ->). lia. Qed.


Lemma digit_of_range c : 0 <= digit_of c <= 9.
Proof.
  unfold digit_of. destruct (decimal_value c) as [v|] eqn:E; [|lia].
  exact (decimal_value_range _ _ E).
Qed.

(** The ASCII digits are decimal digits, with their usual values. *)
Lemma decimal_value_ascii c :
  is_digit c = true -> decimal_value c = Some (c - 48).
Proof.
  intros H. apply is_digit_range in H. unfold decimal_value.
  change decimal_starts with (48 :: tl decimal_starts). cbn [List.find].
  replace ((48 <=? c) && (c <=? 48 + 9)) with true; [reflexivity|].
  symmetry. apply andb_true_iff. rewrite !Z.leb_le. lia.
Qed.

Lemma is_decimal_ascii c : is_digit c = true -> is_decimal c = true.
Proof. intros H. unfold is_decimal. now rewrite (decimal_value_ascii _ H). Qed.

Lemma forallb_decimal_ascii s :
  forallb is_digit s = true -> forallb is_decimal s = true.
Proof.
  rewrite !forallb_forall. intros H x Hx. apply is_decimal_ascii. now apply H.
Qed.





Lemma fold_digits_bounds s : forall acc,
  0 <= acc ->
  acc * 10 ^ Z.of_nat (List.length s)
  <= fold_left (fun a c => 10 * a + digit_of c) s acc
  < (acc + 1) * 10 ^ Z.of_nat (List.length s).
Proof.
  induction s as [|c s IH]; intros acc Hacc.
  - simpl. lia.
  - pose proof (digit_of_range c) as Hc.
    cbn [fold_left List.length]. rewrite Nat2Z.inj_succ, Z.pow_succ_r by lia.
    specialize (IH (10 * acc + digit_of c) ltac:(lia)).
    assert (0 < 10 ^ Z.of_nat (List.length s)) by (apply Z.pow_pos_nonneg; lia).
    nia.
Qed.

Lemma digits_val_bounds s :
  0 <= digits_val s < 10 ^ Z.of_nat (List.length s).
Proof.
  pose proof (fold_digits_bounds s 0 ltac:(lia)) as B.
  unfold digits_val. lia.
Qed.



















(** ** The state monad *)

Lemma bind_ok {A B} (m : M A) (f : A -> M B) st b st' :
  bind m f st = (Ok b, st') ->
  exists a st1, m st = (Ok a, st1) /\ f a st1 = (Ok b, st').
Proof.
  unfold bind. destruct (m st) as [[a|e] st1]; intros H.
  - now exists a, st1.
  - discriminate.
Qed.

Lemma bind_run {A B} (m : M A) (f : A -> M B) st :
  bind m f st
  = match m st with
    | (Ok a, st1) => f a st1
    | (Raise e, st1) => (Raise e, st1)
    end.
Proof. reflexivity. Qed.

(** ** Sorting by ownership *)

Lemma insert_desc_perm x l : Permutation (insert_desc x l) (x :: l).
Proof.
  induction l as [|y l IH]; simpl; [reflexivity|].
  destruct (funded_ratio x <? funded_ratio y); [|reflexivity].
  rewrite IH. apply perm_swap.
Qed.

Lemma sort_desc_perm l : Permutation (sort_desc l) l.
Proof.
  induction l as [|x l IH]; simpl; [reflexivity|].
  rewrite insert_desc_perm. now constructor.
Qed.






Lemma Forall_ratio_ident (P : Z -> Prop) l l' :
  map ident l = map ident l' ->
  Forall (fun c => P (funded_ratio c)) l' ->
  Forall (fun c => P (funded_ratio c)) l.
Proof.
  revert l'. induction l as [|x l IH]; intros [|y l'] H HP; try discriminate;
    constructor; cbn [map] in H;
    assert (Hxy : ident x = ident y) by congruence;
    assert (Hl : map ident l = map ident l') by congruence;
    inversion HP; subst.
  - unfold ident in Hxy. now replace (funded_ratio x) with (funded_ratio y)
      by congruence.
  - eapply IH; eassumption.
Qed.

(** ** The thread pool *)

Lemma worker_step_child w cookie j st :
  fst (fst (worker_step w cookie j st)) = fst j.
Proof.
  unfold worker_step. destruct j as [c [|s|r|r]]; cbn [fst snd].
  - destruct (lookup_step c cookie st) as [[r|s] st']; reflexivity.
  - reflexivity.
  - destruct (store_step w c cookie r st) as [x st']. reflexivity.
  - reflexivity.
Qed.

(** A step of the pool changes nothing, or lets one job take its step. *)
Lemma pool_step_cases w cookie max_workers jobs : forall pick before st,
  pool_step w cookie max_workers before jobs pick st = (before ++ jobs, st)
  \/ exists pre j post,
       jobs = pre ++ j :: post
       /\ may_step max_workers (before ++ pre) j post = true
       /\ pool_step w cookie max_workers before jobs pick st
          = ((before ++ pre) ++ fst (worker_step w cookie j st) :: post,
             snd (worker_step w cookie j st)).
Proof.
  induction jobs as [|j after IH]; intros pick before st.
  - left. cbn. now rewrite app_nil_r.
  - destruct pick as [|pick]; cbn [pool_step].
    + destruct (may_step max_workers before j after) eqn:E; [|now left].
      right. exists [], j, after. rewrite app_nil_r.
      split; [reflexivity|]. split; [exact E|].
      now destruct (worker_step w cookie j st).
    + destruct (IH pick (before ++ [j]) st)
        as [H|(pre & x & post & -> & Hx & H)].
      * left. rewrite H, <- app_assoc. reflexivity.
      * right. exists (j :: pre), x, post. split; [reflexivity|].
        rewrite <- app_assoc in Hx. split; [exact Hx|].
        rewrite H, <- !app_assoc. reflexivity.
Qed.

(** A job run to its end takes its steps one after the other. *)
Lemma complete_steps w cookie j st :
  exists j1 st1 j2 st2 r,
    worker_step w cookie j st = (j1, st1)
    /\ worker_step w cookie j1 st1 = (j2, st2)
    /\ worker_step w cookie j2 st2
       = ((fst j, Returned r), snd (complete w cookie j st))
    /\ fst (complete w cookie j st) = r.
Proof.
  destruct j as [c [|s|resp|r]]; unfold complete; cbn [fst snd].
  - unfold worker_step at 1. cbn [fst snd].
    destruct (lookup_step c cookie st) as [[r|s] st1]; cbn [fst snd].
    + exists (c, Returned r), st1, (c, Returned r), st1, r. repeat split.
    + destruct (request_step w c cookie s st1) as [resp st2] eqn:E2.
      destruct (store_step w c cookie resp st2) as [r st3] eqn:E3.
      exists (c, Fetching s), st1, (c, Fetched resp), st2, r.
      unfold worker_step. cbn [fst snd]. rewrite E2, E3. repeat split.
  - destruct (request_step w c cookie s st) as [resp st2] eqn:E2.
    destruct (store_step w c cookie resp st2) as [r st3] eqn:E3.
    exists (c, Fetched resp), st2, (c, Returned r), st3, r.
    unfold worker_step. cbn [fst snd]. rewrite E2, E3. repeat split.
  - destruct (store_step w c cookie resp st) as [r st3] eqn:E3.
    exists (c, Returned r), st3, (c, Returned r), st3, r.
    unfold worker_step. cbn [fst snd]. rewrite E3. repeat split.
  - exists (c, Returned r), st, (c, Returned r), st, r. repeat split.
Qed.

(** What every step of a job preserves, the pool preserves. *)
Lemma run_picks_invariant (I : list job -> state -> Prop) w cookie max_workers :
  (forall pre j post st,
      I (pre ++ j :: post) st ->
      I (pre ++ fst (worker_step w cookie j st) :: post)
        (snd (worker_step w cookie j st))) ->
  forall picks jobs st,
    I jobs st ->
    I (fst (run_picks w cookie max_workers picks jobs st))
      (snd (run_picks w cookie max_workers picks jobs st)).
Proof.
  intros Hstep. induction picks as [|pick picks IH]; intros jobs st H.
  - exact H.
  - cbn [run_picks].
    destruct (pool_step_cases w cookie max_workers jobs pick [] st)
      as [E|(pre & j & post & -> & _ & E)]; rewrite E; cbn [app].
    + now apply IH.
    + apply IH. now apply Hstep.
Qed.

Lemma drain_invariant (I : list job -> state -> Prop) w cookie :
  (forall pre j post st,
      I (pre ++ j :: post) st ->
      I (pre ++ fst (worker_step w cookie j st) :: post)
        (snd (worker_step w cookie j st))) ->
  forall jobs pre st,
    I (pre ++ jobs) st ->
    I (pre ++ map finished (fst (drain w cookie jobs st)))
      (snd (drain w cookie jobs st)).
Proof.
  intros Hstep. induction jobs as [|j jobs IH]; intros pre st H.
  - exact H.
  - cbn [drain].
    destruct (complete_steps w cookie j st)
      as (j1 & st1 & j2 & st2 & r & E1 & E2 & E3 & Er).
    destruct (complete w cookie j st) as [r' st3]. cbn [fst snd] in *. subst r'.
    pose proof (Hstep pre j jobs st H) as H1. rewrite E1 in H1.
    cbn [fst snd] in H1.
    pose proof (Hstep pre j1 jobs st1 H1) as H2. rewrite E2 in H2.
    cbn [fst snd] in H2.
    pose proof (Hstep pre j2 jobs st2 H2) as H3. rewrite E3 in H3.
    cbn [fst snd] in H3.
    specialize (IH (pre ++ [(fst j, Returned r)]) st3).
    rewrite <- app_assoc in IH. specialize (IH H3).
    destruct (drain w cookie jobs st3) as [done st4]. cbn [fst snd map] in *.
    rewrite <- app_assoc in IH. exact IH.
Qed.

Lemma run_pool_invariant (I : list job -> state -> Prop) w cookie max_workers :
  (forall pre j post st,
      I (pre ++ j :: post) st ->
      I (pre ++ fst (worker_step w cookie j st) :: post)
        (snd (worker_step w cookie j st))) ->
  forall picks children st,
    I (map (fun c => (c, Queued)) children) st ->
    I (map finished (fst (run_pool w cookie max_workers picks children st)))
      (snd (run_pool w cookie max_workers picks children st)).
Proof.
  intros Hstep picks children st H. unfold run_pool.
  pose proof (run_picks_invariant I w cookie max_workers Hstep picks _ _ H)
    as H1.
  destruct (run_picks w cookie max_workers picks
              (map (fun c => (c, Queued)) children) st) as [jobs st1].
  cbn [fst snd] in H1.
  pose proof (drain_invariant I w cookie Hstep jobs [] st1 H1) as H2.
  destruct (drain w cookie jobs st1) as [done st2]. exact H2.
Qed.

(** The futures of a pool are those of the children, in their order. *)
Lemma run_pool_children w cookie max_workers picks children st :
  map fst (fst (run_pool w cookie max_workers picks children st)) = children.
Proof.
  assert (H : map fst (map finished
                (fst (run_pool w cookie max_workers picks children st)))
              = children).
  { apply (run_pool_invariant (fun jobs _ => map fst jobs = children)).
    - intros pre j post st0 E. rewrite map_app in *. cbn [map] in *.
      now rewrite worker_step_child.
    - rewrite map_map. cbn [fst]. apply map_id. }
  rewrite map_map in H. exact H.
Qed.

(** ** Collecting the websites of the children *)

Lemma print_run msg st :
  print msg st
  = if unprintable msg then (Raise UnicodeEncodeError, st)
    else (Ok tt, mk_state (log st) (cache st) (console st ++ [msg])).
Proof. reflexivity. Qed.

Lemma as_completed_cons c r rest acc st :
  as_completed ((c, r) :: rest) acc st
  = match r with
    | Ok site => as_completed rest (acc ++ [set_website c site]) st
    | Raise e =>
        if unprintable_value (name c) then (Raise UnicodeEncodeError, st)
        else as_completed rest (acc ++ [set_website c None])
               (mk_state (log st) (cache st)
                         (console st ++ [MsgChildError (name c) e]))
    end.
Proof.
  cbn [as_completed]. unfold bind, ret, print. cbn [unprintable].
  destruct r as [site|e]; [reflexivity|].
  now destruct (unprintable_value (name c)).
Qed.

(** The collector writes the result of every future into its child, until
    an error line cannot be printed. *)
Lemma as_completed_run completed : forall acc st,
  exists lines,
    Forall (fun m => is_child_error m = true) lines
    /\ ((forallb collectable completed = true
         /\ lines = error_lines completed
         /\ as_completed completed acc st
            = (Ok (acc ++ map recorded completed),
               mk_state (log st) (cache st) (console st ++ lines)))
        \/ (forallb collectable completed = false
            /\ as_completed completed acc st
               = (Raise UnicodeEncodeError,
                  mk_state (log st) (cache st) (console st ++ lines)))).
Proof.
  induction completed as [|[c r] rest IH]; intros acc st.
  - exists []. split; [constructor|]. left. rewrite !app_nil_r.
    destruct st. repeat split.
  - rewrite as_completed_cons. cbn [forallb map].
    destruct r as [site|e].
    + change (collectable (c, Ok site)) with true.
      change (recorded (c, Ok site)) with (set_website c site).
      change (error_lines ((c, Ok site) :: rest)) with (error_lines rest).
      cbn [andb].
      destruct (IH (acc ++ [set_website c site]) st)
        as (lines & Hl & [(Hc & -> & E)|(Hc & E)]).
      * exists (error_lines rest). split; [exact Hl|]. left.
        rewrite E, Hc, <- app_assoc. repeat split.
      * exists lines. split; [exact Hl|]. right. rewrite E, Hc.
        repeat split.
    + change (collectable (c, Raise e))
        with (negb (unprintable_value (name c))).
      change (recorded (c, Raise e)) with (set_website c None).
      change (error_lines ((c, Raise e) :: rest))
        with (MsgChildError (name c) e :: error_lines rest).
      destruct (unprintable_value (name c)) eqn:U; cbn [negb andb].
      * exists []. split; [constructor|]. right. rewrite app_nil_r.
        destruct st. repeat split.
      * destruct (IH (acc ++ [set_website c None])
                    (mk_state (log st) (cache st)
                       (console st ++ [MsgChildError (name c) e])))
          as (lines & Hl & [(Hc & -> & E)|(Hc & E)]);
          cbn [log cache console] in E.
        -- exists (MsgChildError (name c) e :: error_lines rest).
           split; [constructor; [reflexivity|exact Hl]|]. left.
           rewrite E, Hc, <- !app_assoc. repeat split.
        -- exists (MsgChildError (name c) e :: lines).
           split; [constructor; [reflexivity|exact Hl]|]. right.
           rewrite E, Hc, <- !app_assoc. repeat split.
Qed.

(** The report of the children is printed, until a line cannot be. *)
Lemma print_children_run l : forall idx st,
  exists st',
    log st' = log st /\ cache st' = cache st
    /\ filter is_child_error (console st')
       = filter is_child_error (console st)
    /\ ((forallb reportable l = true
         /\ print_children idx l st = (Ok tt, st'))
        \/ (forallb reportable l = false
            /\ print_children idx l st = (Raise UnicodeEncodeError, st'))).
Proof.
  induction l as [|c l IH]; intros idx st.
  - exists st. repeat split. now left.
  - cbn [print_children forallb]. unfold reportable at 1 3.
    rewrite bind_run, print_run. cbn [unprintable].
    destruct (unprintable_value (name c)); cbn [negb andb].
    { exists st. repeat split. now right. }
    rewrite bind_run, print_run. cbn [unprintable log cache console].
    rewrite bind_run, print_run. cbn [log cache console].
    assert (U : unprintable (MsgReportWebsite (website c))
                = match website c with
                  | Some site => existsb is_surrogate site
                  | None => false
                  end) by (destruct (website c); reflexivity).
    rewrite U. clear U.
    destruct (match website c with
              | Some site => existsb is_surrogate site
              | None => false
              end) eqn:W.
    { exists (mk_state (log st) (cache st)
                ((console st ++ [MsgReportChild idx (name c)])
                 ++ [MsgReportRatio (funded_ratio c)])).
      cbn [log cache console].
      split; [reflexivity|]. split; [reflexivity|]. split.
      - rewrite !filter_app. cbn. now rewrite !app_nil_r.
      - right. split; [|reflexivity].
        destruct (website c); [now rewrite W|discriminate]. }
    rewrite bind_run, print_run. cbn [unprintable log cache console].
    match goal with
    | |- context [print_children (S idx) l ?s] =>
        destruct (IH (S idx) s) as (st' & Hl & Hc & Hm & H)
    end.
    cbn [log cache console] in Hl, Hc, Hm.
    exists st'. split; [exact Hl|]. split; [exact Hc|]. split.
    + rewrite Hm, !filter_app. cbn. now rewrite !app_nil_r.
    + assert (R : match website c with
                  | Some site => negb (existsb is_surrogate site)
                  | None => true
                  end = true)
        by (destruct (website c); [now rewrite W|reflexivity]).
      rewrite R. exact H.
Qed.

Lemma thread_pool_run w schedule cookie max_workers child_companies st :
  thread_pool w schedule cookie max_workers child_companies st
  = (Ok (yield_order schedule (List.length (log st)) _
           (fst (run_pool w cookie max_workers
                   (interleaving schedule (List.length (log st)))
                   child_companies st))),
     snd (run_pool w cookie max_workers
            (interleaving schedule (List.length (log st)))
            child_companies st)).
Proof.
  unfold thread_pool.
  now destruct (run_pool w cookie max_workers
                  (interleaving schedule (List.length (log st)))
                  child_companies st).
Qed.

(** What the fan-out does, for any positive number of workers: the pool
    runs, the futures are collected as they are yielded, sorted and
    printed.  Only a line that cannot be printed stops it. *)
Lemma fetch_children_websites_run w schedule cookie parent threshold
    max_workers child_companies st :
  0 < max_workers ->
  let pool := run_pool w cookie max_workers
                (interleaving schedule (List.length (log st)))
                child_companies
                (announced (List.length child_companies) st) in
  let yielded := yield_order schedule (List.length (log st)) _ (fst pool) in
  exists st',
    log st' = log (snd pool) /\ cache st' = cache (snd pool)
    /\ (exists lines,
           filter is_child_error (console st')
           = filter is_child_error (console (snd pool)) ++ lines
           /\ (forallb collectable yielded = true ->
               lines = error_lines yielded))
    /\ (fetch_children_websites w schedule cookie parent threshold
          max_workers child_companies st
        = (Ok (sort_desc (map recorded yielded)), st')
        \/ printable parent yielded = false
           /\ fetch_children_websites w schedule cookie parent threshold
                max_workers child_companies st
              = (Raise UnicodeEncodeError, st')).
Proof.
  intros Hw pool yielded.
  remember (fetch_children_websites w schedule cookie parent threshold
              max_workers child_companies st) as out eqn:F.
  unfold fetch_children_websites in F.
  rewrite bind_run, print_run in F. cbn [unprintable] in F.
  fold (announced (List.length child_companies) st) in F.
  rewrite bind_run in F.
  replace (max_workers <=? 0) with false in F
    by (symmetry; apply Z.leb_gt; lia).
  unfold ret at 1 in F. rewrite bind_run, thread_pool_run in F.
  change (log (announced (List.length child_companies) st)) with (log st) in F.
  fold pool in F. fold yielded in F. rewrite bind_run in F.
  assert (Hfil : forall lines,
             Forall (fun m => is_child_error m = true) lines ->
             filter is_child_error (console (snd pool) ++ lines)
             = filter is_child_error (console (snd pool)) ++ lines).
  { intros lines Hl. rewrite filter_app. f_equal. apply forallb_filter_id.
    apply forallb_forall. now apply Forall_forall. }
  destruct (as_completed_run yielded [] (snd pool))
    as (lines & Hlines & [(Hc & -> & E)|(Hc & E)]); rewrite E in F;
    cbn [app] in F.
  - pose proof (Hfil _ Hlines) as Hf.
    rewrite bind_run in F.
    destruct (sort_desc (map recorded yielded)) as [|x s] eqn:Es.
    + unfold ret in F.
      exists (mk_state (log (snd pool)) (cache (snd pool))
                (console (snd pool) ++ error_lines yielded)).
      cbn [log cache console].
      split; [reflexivity|]. split; [reflexivity|].
      split; [exists (error_lines yielded); split; [exact Hf|reflexivity]|].
      now left.
    + rewrite bind_run, print_run in F. cbn [unprintable log cache console] in F.
      destruct (unprintable_value parent) eqn:U.
      * exists (mk_state (log (snd pool)) (cache (snd pool))
                  (console (snd pool) ++ error_lines yielded)).
        cbn [log cache console].
        split; [reflexivity|]. split; [reflexivity|].
        split; [exists (error_lines yielded); split; [exact Hf|reflexivity]|].
        right. split; [|exact F]. unfold printable. now rewrite U.
      * match type of F with
        | context [print_children 1 (x :: s) ?s0] =>
            destruct (print_children_run (x :: s) 1 s0)
              as (st' & Hl & Hcc & Hm & H)
        end.
        cbn [log cache console] in Hl, Hcc, Hm.
        exists st'. split; [exact Hl|]. split; [exact Hcc|]. split.
        { exists (error_lines yielded). split; [|reflexivity].
          rewrite Hm, filter_app. cbn [filter is_child_error].
          rewrite app_nil_r. exact Hf. }
        destruct H as [(Hr & Hp)|(Hr & Hp)]; rewrite Hp in F.
        -- now left.
        -- right. split; [|exact F]. unfold printable.
           assert (Hs : forallb reportable (map recorded yielded) = false).
           { apply not_true_is_false. intros T0.
             rewrite <- Es in Hr.
             assert (T : forallb reportable (sort_desc (map recorded yielded))
                         = true).
             { rewrite forallb_forall in T0 |- *. intros y Hy. apply T0.
               eapply Permutation_in; [apply sort_desc_perm|exact Hy]. }
             congruence. }
           rewrite Hs. apply andb_false_r.
  - exists (mk_state (log (snd pool)) (cache (snd pool))
              (console (snd pool) ++ lines)).
    cbn [log cache console]. split; [reflexivity|]. split; [reflexivity|].
    split.
    + exists lines. split; [now apply Hfil|congruence].
    + right. split; [|exact F]. unfold printable. rewrite Hc.
      now rewrite andb_false_r.
Qed.

(** When everything can be printed, the fan-out returns. *)
Lemma fetch_children_websites_printable w schedule cookie parent threshold
    max_workers child_companies st :
  0 < max_workers ->
  let pool := run_pool w cookie max_workers
                (interleaving schedule (List.length (log st)))
                child_companies
                (announced (List.length child_companies) st) in
  let yielded := yield_order schedule (List.length (log st)) _ (fst pool) in
  printable parent yielded = true ->
  fst (fetch_children_websites w schedule cookie parent threshold
         max_workers child_companies st)
  = Ok (sort_desc (map recorded yielded)).
Proof.
  intros Hw pool yielded Hp.
  destruct (fetch_children_websites_run w schedule cookie parent threshold
              max_workers child_companies st Hw)
    as (st' & _ & _ & _ & [E|(F & _)]).
  - now rewrite E.
  - fold pool yielded in F. congruence.
Qed.


Lemma recorded_ident f : ident (recorded f) = ident (fst f).
Proof. reflexivity. Qed.

Lemma map_ident_recorded l : map ident (map recorded l) = map ident (map fst l).
Proof. rewrite !map_map. apply map_ext. intros f. apply recorded_ident. Qed.


(** ** What each call does to the log, the cache and the console *)

Ltac break_match :=
  match goal with
  | |- context [match ?x with _ => _ end] => destruct x eqn:?
  end.

Ltac run_monad :=
  unfold bind, try_except, lift, print, ret, raise, http_post, http_get;
  cbn [fst snd log cache console].

Lemma filter_snoc_false {A} (f : A -> bool) l x :
  f x = false -> filter f (l ++ [x]) = filter f l.
Proof. intros H. rewrite filter_app. cbn. rewrite H. apply app_nil_r. Qed.

Lemma quiet_ret {A} (a : A) : quiet (ret a).
Proof. intros st. repeat split. Qed.

Lemma quiet_lift {A} (r : result A) : quiet (lift r).
Proof. intros st. repeat split. Qed.

Lemma quiet_raise {A} (e : exn) : quiet (@raise A e).
Proof. intros st. repeat split. Qed.

Lemma quiet_print msg : is_child_error msg = false -> quiet (print msg).
Proof.
  intros H st. unfold print.
  destruct (unprintable msg); cbn [snd log cache console];
    [repeat split|].
  rewrite (filter_snoc_false _ _ _ H). repeat split.
Qed.

Lemma quiet_bind {A B} (m : M A) (f : A -> M B) :
  quiet m -> (forall a, quiet (f a)) -> quiet (bind m f).
Proof.
  intros Hm Hf st. unfold bind. destruct (Hm st) as (H1 & H2 & H3).
  destruct (m st) as [[a|e] st1]; cbn [snd] in *.
  - destruct (Hf a st1) as (G1 & G2 & G3). repeat split; congruence.
  - repeat split; assumption.
Qed.

Lemma quiet_try {A} (m : M A) handled (h : exn -> M A) :
  quiet m -> (forall e, quiet (h e)) -> quiet (try_except m handled h).
Proof.
  intros Hm Hh st. unfold try_except. destruct (Hm st) as (H1 & H2 & H3).
  destruct (m st) as [[a|e] st1]; cbn [snd] in *.
  - repeat split; assumption.
  - destruct (handled e); cbn [snd]; [|repeat split; assumption].
    destruct (Hh e st1) as (G1 & G2 & G3). repeat split; congruence.
Qed.

Ltac quiet_step :=
  first
    [ apply quiet_ret
    | apply quiet_lift
    | apply quiet_raise
    | apply quiet_print; reflexivity
    | apply quiet_bind; [|intros ?]
    | apply quiet_try; [|intros ?]
    | match goal with
      | |- quiet (match ?x with _ => _ end) => destruct x
      end ].

Lemma get_ent_info_frame w k c st :
  log (snd (get_ent_info w k c st)) = log st ++ [PostSearch k c]
  /\ cache (snd (get_ent_info w k c st)) = cache st
  /\ filter is_child_error (console (snd (get_ent_info w k c st)))
     = filter is_child_error (console st).
Proof.
  destruct (get_ent_info w k c st) as [r st'] eqn:E. cbn [snd].
  unfold get_ent_info in E. rewrite bind_run in E. unfold http_post at 1 in E.
  match type of E with
  | ?m ?s = _ =>
      assert (Hq : quiet m) by (repeat quiet_step);
      destruct (Hq s) as (H1 & H2 & H3)
  end.
  rewrite E in H1, H2, H3. cbn [snd log cache console] in *.
  repeat split; assumption.
Qed.

Lemma query_equity_investment_frame w i c t st :
  log (snd (query_equity_investment w i c t st)) = log st ++ [PostEquity i c]
  /\ cache (snd (query_equity_investment w i c t st)) = cache st
  /\ filter is_child_error (console (snd (query_equity_investment w i c t st)))
     = filter is_child_error (console st).
Proof.
  destruct (query_equity_investment w i c t st) as [r st'] eqn:E. cbn [snd].
  unfold query_equity_investment in E. rewrite bind_run in E.
  unfold http_post at 1 in E.
  match type of E with
  | ?m ?s = _ =>
      assert (Hq : quiet m) by (repeat quiet_step);
      destruct (Hq s) as (H1 & H2 & H3)
  end.
  rewrite E in H1, H2, H3. cbn [snd log cache console] in *.
  repeat split; assumption.
Qed.

(** The page is read without a request, and whatever goes wrong in it is
    caught. *)
Lemma read_page_quiet w response : quiet (read_page w response).
Proof. unfold read_page. repeat quiet_step. Qed.

Lemma read_page_total w response st :
  exists site lines,
    read_page w response st
    = (Ok site, mk_state (log st) (cache st) (console st ++ lines))
    /\ filter is_child_error lines = [].
Proof.
  unfold read_page. destruct response as [html|].
  - destruct (find html marker =? -1).
    + exists None, []. rewrite app_nil_r. destruct st. split; reflexivity.
    + destruct (soup_find_a_href w (slice html (find html marker) 1000))
        as [[href|]|e].
      * exists (Some (normalize_href href)), []. rewrite app_nil_r.
        destruct st. split; reflexivity.
      * exists None, []. rewrite app_nil_r. destruct st. split; reflexivity.
      * exists None, [MsgPageParseFailed e]. split; reflexivity.
  - exists None, [MsgPageRequestFailed]. split; reflexivity.
Qed.

(** The function under the decorator never touches the cache, sends at most
    the page request, and returns whenever [quote] accepts the name. *)
Lemma get_official_website_uncached_frame w n i c st :
  cache (snd (get_official_website_uncached w n i c st)) = cache st
  /\ filter is_equity_request
       (log (snd (get_official_website_uncached w n i c st)))
     = filter is_equity_request (log st)
  /\ filter is_child_error
       (console (snd (get_official_website_uncached w n i c st)))
     = filter is_child_error (console st)
  /\ (encodable_name n = true ->
      exists site, fst (get_official_website_uncached w n i c st) = Ok site).
Proof.
  destruct (get_official_website_uncached w n i c st) as [r st'] eqn:E.
  cbn [fst snd].
  unfold get_official_website_uncached in E. rewrite bind_run in E.
  unfold lift at 1 in E.
  destruct (quote n) as [s|e] eqn:Q.
  - rewrite bind_run in E. unfold http_get at 1 in E.
    match type of E with
    | read_page w ?resp ?s0 = _ =>
        destruct (read_page_quiet w resp s0) as (H1 & H2 & H3)
    end.
    rewrite E in H1, H2, H3. cbn [snd log cache console] in *.
    rewrite H1, (filter_snoc_false is_equity_request) by reflexivity.
    repeat split; try assumption. intros _.
    match type of E with
    | read_page w ?resp ?s0 = _ =>
        destruct (read_page_total w resp s0) as (site & lines & Er & _)
    end.
    rewrite Er in E. injection E as <- _. eauto.
  - injection E as <- <-. repeat split. intros H. exfalso.
    unfold quote, encodable_name in *. destruct n; try discriminate.
    destruct (existsb is_surrogate s); discriminate.
Qed.

Lemma removelast_length {A} (l : list A) :
  List.length (removelast l) = Nat.pred (List.length l).
Proof.
  induction l as [|x [|y l] IH]; try reflexivity.
  cbn [removelast List.length] in *. now rewrite IH.
Qed.

Lemma cache_store_length entry c :
  (List.length c <= maxsize ->
   List.length (cache_store entry c) <= maxsize)%nat.
Proof.
  unfold cache_store. intros H.
  destruct (Nat.ltb_spec (List.length c) maxsize) as [L|L]; cbn [List.length].
  - lia.
  - rewrite removelast_length. unfold maxsize in *. lia.
Qed.

Lemma cache_find_some k c e rest :
  cache_find k c = Some (e, rest) ->
  key_eqb k (fst e) = true
  /\ List.length c = S (List.length rest)
  /\ exists pre post,
       c = pre ++ e :: post /\ rest = pre ++ post
       /\ forallb (fun x => negb (key_eqb k (fst x))) pre = true.
Proof.
  revert e rest. induction c as [|x c IH]; intros e rest H; [discriminate|].
  cbn [cache_find] in H. destruct (key_eqb k (fst x)) eqn:E.
  - injection H as <- <-. split; [exact E|]. split; [reflexivity|].
    exists [], c. repeat split.
  - destruct (cache_find k c) as [[found rest']|] eqn:F; [|discriminate].
    injection H as <- <-. destruct (IH _ _ eq_refl) as (Hk & Hl & pre & post & -> & -> & Hp).
    split; [exact Hk|]. split; [cbn [List.length]; now rewrite Hl|].
    exists (x :: pre), post. repeat split. cbn [forallb]. now rewrite E, Hp.
Qed.

Lemma cache_find_none k c :
  cache_find k c = None ->
  forallb (fun x => negb (key_eqb k (fst x))) c = true.
Proof.
  induction c as [|x c IH]; intros H; [reflexivity|].
  cbn [cache_find] in H. destruct (key_eqb k (fst x)) eqn:E; [discriminate|].
  destruct (cache_find k c) as [[found rest']|]; [discriminate|].
  cbn [forallb]. now rewrite E, IH.
Qed.

Lemma get_official_website_frame w n i c st :
  filter is_equity_request (log (snd (get_official_website w n i c st)))
  = filter is_equity_request (log st)
  /\ filter is_child_error (console (snd (get_official_website w n i c st)))
     = filter is_child_error (console st)
  /\ ((List.length (cache st) <= maxsize)%nat ->
      (List.length (cache (snd (get_official_website w n i c st)))
       <= maxsize)%nat).
Proof.
  unfold get_official_website.
  destruct (negb (hashable n && hashable i)); [repeat split; auto|].
  destruct (cache_find (n, i, c) (cache st)) as [[entry rest]|] eqn:F.
  - cbn [fst snd log cache console]. repeat split.
    intros H. apply cache_find_some in F as (_ & Hl & _).
    cbn [List.length]. lia.
  - destruct (get_official_website_uncached_frame w n i c st)
      as (Hc & Hl & Hm & _).
    destruct (get_official_website_uncached w n i c st) as [[site|e] st1];
      cbn [fst snd log cache console] in *; repeat split; auto.
    + intros H. apply cache_store_length. now rewrite Hc.
    + now rewrite Hc.
Qed.


(** ** The steps of a job *)

Lemma well_named_false_l c : hashable (name c) && hashable (entid c) = false ->
  well_named c = false.
Proof.
  unfold well_named. intros H. apply andb_false_iff in H as [H|H].
  - destruct (name c); try discriminate; reflexivity.
  - rewrite H. apply andb_false_r.
Qed.

Lemma quote_raises_name v e : quote v = Raise e -> encodable_name v = false.
Proof.
  unfold quote, encodable_name. destruct v; try reflexivity.
  destruct (existsb is_surrogate s); [reflexivity|discriminate].
Qed.

Lemma worker_step_stepped w cookie j st :
  stepped w cookie j st (fst (worker_step w cookie j st))
    (snd (worker_step w cookie j st)).
Proof.
  destruct j as [c [|s|response|r]]; unfold worker_step; cbn [fst snd].
  - unfold lookup_step.
    destruct (hashable (name c) && hashable (entid c)) eqn:Hh; cbn [negb].
    + destruct (cache_find (name c, entid c, cookie) (cache st))
        as [[entry rest]|] eqn:F.
      * cbn [fst snd]. now apply step_hit.
      * apply andb_true_iff in Hh as [Hn Hi].
        destruct (quote (name c)) as [s|e] eqn:Q; cbn [fst snd].
        -- now apply step_miss.
        -- apply step_raise. unfold well_named.
           now rewrite (quote_raises_name _ _ Q).
    + cbn [fst snd]. apply step_raise. now apply well_named_false_l.
  - unfold request_step. cbn [fst snd]. apply step_request.
  - unfold store_step.
    destruct (read_page_total w response st) as (site & lines & E & Hl).
    rewrite E. cbn [cache log console fst snd].
    destruct (cache_find (name c, entid c, cookie) (cache st)) as [x|] eqn:F;
      cbn [fst snd].
    + apply step_store; [now rewrite E|exact Hl|now left].
    + apply step_store; [now rewrite E|exact Hl|right; now split].
  - apply step_none.
Qed.

(** What every kind of step preserves, the pool preserves. *)
Lemma run_pool_stepped (I : list job -> state -> Prop) w cookie max_workers
    picks children st :
  (forall pre j post s j' s',
      stepped w cookie j s j' s' ->
      I (pre ++ j :: post) s -> I (pre ++ j' :: post) s') ->
  I (map (fun c => (c, Queued)) children) st ->
  I (map finished (fst (run_pool w cookie max_workers picks children st)))
    (snd (run_pool w cookie max_workers picks children st)).
Proof.
  intros Hstep H. apply run_pool_invariant; [|exact H].
  intros pre j post s. apply Hstep. apply worker_step_stepped.
Qed.

(** A job that runs without interruption is a call of the extractor. *)
Lemma complete_queued w cookie c st :
  complete w cookie (c, Queued) st
  = get_official_website w (name c) (entid c) cookie st.
Proof.
  unfold complete, get_official_website, lookup_step. cbn [fst snd].
  destruct (negb (hashable (name c) && hashable (entid c))); [reflexivity|].
  destruct (cache_find (name c, entid c, cookie) (cache st))
    as [[entry rest]|] eqn:F; [reflexivity|].
  unfold get_official_website_uncached. rewrite bind_run. unfold lift at 1.
  destruct (quote (name c)) as [s|e]; [|reflexivity].
  rewrite bind_run. unfold http_get at 1, request_step, store_step.
  match goal with
  | |- context [read_page w ?resp ?s0] =>
      destruct (read_page_total w resp s0) as (site & lines & E & _)
  end.
  rewrite E. cbn [cache log console]. now rewrite F.
Qed.

(** The jobs of a pool send page requests only, each job at most one; the
    cache stays within its size; no child error is reported; and a job for
    a child the extractor can take never ends in an exception. *)
Lemma run_pool_frame w cookie max_workers picks children st :
  let pool := run_pool w cookie max_workers picks children st in
  (exists reqs,
      log (snd pool) = log st ++ reqs
      /\ Forall (fun r => is_page_request r = true) reqs
      /\ (List.length reqs <= List.length children)%nat)
  /\ filter is_child_error (console (snd pool))
     = filter is_child_error (console st)
  /\ ((List.length (cache st) <= maxsize)%nat ->
      (List.length (cache (snd pool)) <= maxsize)%nat)
  /\ (forall c e, In (c, Raise e) (fst pool) -> well_named c = false).
Proof.
  intros pool.
  pose (I := fun (jobs : list job) (s : state) =>
       (exists reqs,
           log s = log st ++ reqs
           /\ Forall (fun r => is_page_request r = true) reqs
           /\ (List.length reqs + List.length (filter unsent jobs)
               <= List.length children)%nat)
       /\ filter is_child_error (console s)
          = filter is_child_error (console st)
       /\ ((List.length (cache st) <= maxsize)%nat ->
           (List.length (cache s) <= maxsize)%nat)
       /\ (forall c e, In (c, Returned (Raise e)) jobs ->
           well_named c = false)).
  assert (H : I (map finished (fst pool)) (snd pool));
    [apply run_pool_stepped; unfold I; clear I
    |destruct H as ((reqs & Hl & Hp & Hn) & Hm & Hc & Hr)].
  - (* every step preserves the four facts *)
    intros pre j post s j' s' Hstep ((reqs & Hl & Hp & Hn) & Hm & Hc & Hr).
    rewrite filter_app in Hn. cbn [filter] in Hn.
    rewrite length_app in Hn.
    destruct Hstep
      as [c r s|c e s Hw|c s entry rest F|c x s _ _ F Q|c x s
          |c response site s lines cache' Hs Hlines Hcache];
      cbn [log cache console];
      (split; [|split; [|split]]).
    + exists reqs. rewrite filter_app, length_app. cbn [filter] in *.
      repeat split; assumption.
    + exact Hm.
    + exact Hc.
    + exact Hr.
    + exists reqs. rewrite filter_app, length_app. cbn [filter unsent snd] in *.
      cbn [List.length] in Hn. repeat split; try assumption. lia.
    + exact Hm.
    + exact Hc.
    + intros c0 e0 Hin. apply in_app_or in Hin as [Hin|[Hin|Hin]].
      * apply (Hr c0 e0). apply in_or_app. now left.
      * injection Hin as <- _. exact Hw.
      * apply (Hr c0 e0). apply in_or_app. right. now right.
    + exists reqs. rewrite filter_app, length_app. cbn [filter unsent snd] in *.
      cbn [List.length] in Hn. repeat split; try assumption. lia.
    + exact Hm.
    + intros L. specialize (Hc L).
      apply cache_find_some in F as (_ & Hlen & _). cbn [List.length]. lia.
    + intros c0 e0 Hin. apply in_app_or in Hin as [Hin|[Hin|Hin]].
      * apply (Hr c0 e0). apply in_or_app. now left.
      * discriminate.
      * apply (Hr c0 e0). apply in_or_app. right. now right.
    + exists reqs. rewrite filter_app, length_app. cbn [filter unsent snd] in *.
      repeat split; assumption.
    + exact Hm.
    + exact Hc.
    + intros c0 e0 Hin. apply in_app_or in Hin as [Hin|[Hin|Hin]].
      * apply (Hr c0 e0). apply in_or_app. now left.
      * discriminate.
      * apply (Hr c0 e0). apply in_or_app. right. now right.
    + exists (reqs ++ [GetPage x (entid c) cookie]).
      rewrite filter_app, !length_app. cbn [filter unsent snd] in *.
      cbn [List.length] in *. rewrite Hl, <- app_assoc.
      split; [reflexivity|]. split; [|lia].
      apply Forall_app. split; [exact Hp|]. constructor; [reflexivity|constructor].
    + exact Hm.
    + exact Hc.
    + intros c0 e0 Hin. apply in_app_or in Hin as [Hin|[Hin|Hin]].
      * apply (Hr c0 e0). apply in_or_app. now left.
      * discriminate.
      * apply (Hr c0 e0). apply in_or_app. right. now right.
    + exists reqs. rewrite filter_app, length_app. cbn [filter unsent snd] in *.
      repeat split; assumption.
    + rewrite filter_app, Hlines, app_nil_r. exact Hm.
    + intros L. specialize (Hc L).
      destruct Hcache as [->|[_ ->]]; [exact Hc|].
      now apply cache_store_length.
    + intros c0 e0 Hin. apply in_app_or in Hin as [Hin|[Hin|Hin]].
      * apply (Hr c0 e0). apply in_or_app. now left.
      * discriminate.
      * apply (Hr c0 e0). apply in_or_app. right. now right.
  - (* they hold at the start *)
    split; [|split; [|split]].
    + exists []. rewrite app_nil_r. split; [reflexivity|].
      split; [constructor|]. cbn [List.length].
      assert (E : filter unsent (map (fun c => (c, Queued)) children)
                  = map (fun c => (c, Queued)) children).
      { apply forallb_filter_id. apply forallb_forall. intros x Hx.
        apply in_map_iff in Hx as (c & <- & _). reflexivity. }
      rewrite E, length_map. lia.
    + reflexivity.
    + auto.
    + intros c e Hin. apply in_map_iff in Hin as (c0 & Hc0 & _). discriminate.
  - split; [|split; [|split]]; try assumption.
    + exists reqs. repeat split; try assumption. lia.
    + intros c e Hin. apply (Hr c e).
      apply in_map_iff. exists (c, Raise e). split; [reflexivity|exact Hin].
Qed.

(** ** The threshold *)

Lemma equity_loop_body_threshold threshold c x :
  equity_loop_body threshold c = Ok (Some x) -> threshold <= funded_ratio x.
Proof.
  unfold equity_loop_body.
  destruct (dict_get c (str "fundedRatio") (JStr [])) as [v|]; [|discriminate].
  cbn [rbind]. destruct (str_replace v c_percent) as [s|]; [|discriminate].
  cbn [rbind]. destruct (isdigit (remove_char c_dot s)); [|discriminate].
  destruct (py_float s) as [f|]; [|discriminate].
  cbn [rbind]. destruct (py_int f) as [ratio|]; [|discriminate].
  cbn [rbind]. destruct (threshold <=? ratio) eqn:E; [|discriminate].
  destruct (getitem c (str "entname")) as [n|]; [|discriminate].
  destruct (getitem c (str "entid")) as [i|]; [|discriminate].
  cbn [rbind]. intros H. injection H as <-. cbn [funded_ratio].
  now apply Z.leb_le.
Qed.

Lemma equity_loop_threshold threshold children : forall results l,
  Forall (fun c => threshold <= funded_ratio c) results ->
  equity_loop threshold children results = Ok l ->
  Forall (fun c => threshold <= funded_ratio c) l.
Proof.
  induction children as [|c rest IH]; intros results l Hres H.
  - cbn in H. now injection H as <-.
  - cbn [equity_loop] in H.
    destruct (equity_loop_body threshold c) as [[x|]|] eqn:E;
      cbn [rbind] in H; [| |discriminate].
    + apply (IH (results ++ [x]) l); [|exact H].
      apply Forall_app. split; [exact Hres|].
      constructor; [|constructor].
      eapply equity_loop_body_threshold; exact E.
    + apply (IH _ _ Hres H).
Qed.

Lemma equity_results_threshold data threshold l :
  equity_results data threshold = Ok l ->
  Forall (fun c => threshold <= funded_ratio c) l.
Proof.
  unfold equity_results.
  destruct (dict_get data (str "success") JNull) as [s|]; [|discriminate].
  cbn [rbind]. destruct (truthy s); [|intros H; injection H as <-; constructor].
  destruct (dict_get data (str "data") JNull) as [p|]; [|discriminate].
  cbn [rbind]. destruct (truthy p); [|intros H; injection H as <-; constructor].
  destruct (getitem data (str "data")) as [d|]; [|discriminate].
  cbn [rbind].
  destruct (dict_get d (str "children") (JArr [])) as [ch|]; [|discriminate].
  cbn [rbind]. destruct (iterate ch) as [items|]; [|discriminate].
  cbn [rbind]. apply equity_loop_threshold. constructor.
Qed.

Lemma query_equity_investment_threshold w i c threshold st l st' :
  query_equity_investment w i c threshold st = (Ok l, st') ->
  Forall (fun x => threshold <= funded_ratio x) l.
Proof.
  unfold query_equity_investment. intros H.
  apply bind_ok in H as (resp & st1 & _ & H).
  destruct resp as [data|].
  - unfold lift in H. injection H as H _.
    now apply equity_results_threshold in H.
  - apply bind_ok in H as (? & ? & _ & H). unfold ret in H.
    injection H as <- _. constructor.
Qed.

(** The children of a lookup are either none, or the sorted collection of
    what the graph query returned, in the order in which the futures were
    yielded. *)
Lemma fetch_equity_investments_inv w schedule cookie parent parent_id
    equity_threshold max_workers st l st' :
  fetch_equity_investments w schedule cookie parent parent_id
    equity_threshold max_workers st = (Ok l, st') ->
  l = []
  \/ exists threshold child_companies futures st1,
       equity_threshold = Some threshold
       /\ query_equity_investment w parent_id cookie threshold st
          = (Ok child_companies, st1)
       /\ map fst futures = child_companies
       /\ l = sort_desc
                (map recorded
                   (yield_order schedule (List.length (log st1)) _ futures)).
Proof.
  unfold fetch_equity_investments.
  destruct equity_threshold as [threshold|];
    [|unfold ret; intros H; injection H as <- _; now left].
  destruct ((0 <=? threshold) && (threshold <=? 100));
    [|unfold ret; intros H; injection H as <- _; now left].
  intros H. apply bind_ok in H as (cc & st1 & Hq & H).
  destruct cc as [|c cc]; [unfold ret in H; injection H as <- _; now left|].
  right. destruct (Z_lt_le_dec 0 max_workers) as [Hw|Hw].
  - destruct (fetch_children_websites_run w schedule cookie parent threshold
                max_workers (c :: cc) st1 Hw)
      as (st2 & _ & _ & _ & [E|(_ & E)]); rewrite E in H; [|discriminate].
    injection H as <- _.
    eexists threshold, (c :: cc), _, st1.
    split; [reflexivity|]. split; [exact Hq|]. split; [|reflexivity].
    apply run_pool_children.
  - unfold fetch_children_websites in H. rewrite !bind_run in H.
    rewrite print_run in H. cbn [unprintable] in H.
    replace (max_workers <=? 0) with true in H
      by (symmetry; apply Z.leb_le; lia).
    discriminate.
Qed.

Lemma fetch_official_website_inv w schedule search_key cookie
    equity_threshold max_workers st r st' :
  fetch_official_website w schedule search_key cookie equity_threshold
    max_workers st = (Ok r, st') ->
  r = mk_result JNull None []
  \/ exists parent parent_id st1 st2,
       fetch_equity_investments w schedule cookie parent parent_id
         equity_threshold max_workers st1
       = (Ok (equity_investments r), st2).
Proof.
  intros H. unfold fetch_official_website in H.
  apply bind_ok in H as (info & st1 & _ & H).
  destruct info as [[pn pid]|];
    [|unfold ret in H; injection H as <- _; now left].
  apply bind_ok in H as (site & st2 & _ & H).
  apply bind_ok in H as (l & st3 & Hl & H).
  unfold ret in H. injection H as <- _. right. eauto.
Qed.

(** C6: every child the graph query produces holds at least the threshold,
    and so does every child of a lookup result and every child row of the
    report, whatever the completion order of the fetches. *)
Theorem ownership_at_least_threshold :
  forall (w : world) (schedule : scheduler)
         (search_key cookie : pystr) (ent_id : json) (threshold : Z)
         (max_workers : Z) (st : state),
    (forall t A (l : list A), Permutation (yield_order schedule t A l) l) ->
    (forall l st',
        query_equity_investment w ent_id cookie threshold st = (Ok l, st') ->
        Forall (fun c => threshold <= funded_ratio c) l)
    /\ (forall r st',
           fetch_official_website w schedule search_key cookie
             (Some threshold) max_workers st = (Ok r, st') ->
           Forall (fun c => threshold <= funded_ratio c) (equity_investments r)
           /\ forall n u z,
                In [CValue n; CText u; CInt z] (result_rows r) ->
                threshold <= z).
Proof.
  intros w schedule search_key cookie ent_id threshold max_workers st Hperm.
  split; [intros l st'; apply query_equity_investment_threshold|].
  intros r st' H.
  assert (Hall : Forall (fun c => threshold <= funded_ratio c)
                   (equity_investments r)).
  { apply fetch_official_website_inv in H as [->|(pn & pid & st1 & st2 & H)];
      [constructor|].
    apply fetch_equity_investments_inv
      in H as [->|(t & cc & futures & st3 & Et & Hq & Hf & ->)]; [constructor|].
    injection Et as <-.
    apply query_equity_investment_threshold in Hq.
    eapply Permutation_Forall; [symmetry; apply sort_desc_perm|].
    eapply (Forall_ratio_ident (fun z => threshold <= z));
      [apply map_ident_recorded|].
    eapply Permutation_Forall;
      [symmetry; apply Permutation_map, Hperm|]. now rewrite Hf. }
  split; [exact Hall|].
  intros n u z [Hin|Hin]; [discriminate|].
  apply in_map_iff in Hin as (c & Hc & Hin).
  rewrite Forall_forall in Hall. specialize (Hall c Hin).
  unfold child_row in Hc. now injection Hc as _ _ <-.
Qed.

(** C5: for every threshold outside the range 0..100 the equity block
    returns no child without doing anything, a lookup sends no request to
    the graph endpoint, and its result has no children. *)
Theorem threshold_out_of_range_skips_query :
  forall (w : world) (schedule : scheduler)
         (search_key cookie : pystr) (threshold : Z) (max_workers : Z)
         (st : state),
    threshold < 0 \/ 100 < threshold ->
    (forall parent parent_id st0,
        fetch_equity_investments w schedule cookie parent parent_id
          (Some threshold) max_workers st0 = (Ok [], st0))
    /\ filter is_equity_request
         (log (snd (fetch_official_website w schedule search_key cookie
                      (Some threshold) max_workers st)))
       = filter is_equity_request (log st)
    /\ (forall r,
           fst (fetch_official_website w schedule search_key cookie
                  (Some threshold) max_workers st) = Ok r ->
           equity_investments r = []).
Proof.
  intros w schedule search_key cookie threshold max_workers st Hout.
  assert (Hskip : forall parent parent_id st0,
             fetch_equity_investments w schedule cookie parent parent_id
               (Some threshold) max_workers st0 = (Ok [], st0)).
  { intros. unfold fetch_equity_investments.
    replace ((0 <=? threshold) && (threshold <=? 100)) with false;
      [reflexivity|].
    symmetry. apply andb_false_iff.
    destruct Hout; [left; apply Z.leb_gt|right; apply Z.leb_gt]; lia. }
  split; [exact Hskip|].
  unfold fetch_official_website. rewrite bind_run.
  destruct (get_ent_info_frame w search_key cookie st) as (Hl & _ & _).
  destruct (get_ent_info w search_key cookie st) as [[info|e] st1];
    cbn [snd] in Hl.
  - destruct info as [[pn pid]|].
    + rewrite bind_run.
      destruct (get_official_website_frame w pn pid cookie st1) as (Hg & _).
      destruct (get_official_website w pn pid cookie st1) as [[site|e] st2];
        cbn [snd] in Hg.
      * rewrite bind_run, Hskip. unfold ret. cbn [fst snd]. split.
        -- rewrite Hg, Hl. now apply filter_snoc_false.
        -- intros r H. now injection H as <-.
      * cbn [fst snd]. split; [|discriminate].
        rewrite Hg, Hl. now apply filter_snoc_false.
    + unfold ret. cbn [fst snd]. split.
      * rewrite Hl. now apply filter_snoc_false.
      * intros r H. now injection H as <-.
  - cbn [fst snd]. split; [|discriminate].
    rewrite Hl. now apply filter_snoc_false.
Qed.

(** ** A search key that resolves to nothing *)

(** C10: when the resolver does not return an entity, the lookup ends where
    the resolver ended: the search request is the only request sent for the
    key, the website cache is not consulted, and a resolver that returned
    None gives the empty result. *)
Theorem unresolved_key_short_circuits :
  forall (w : world) (schedule : scheduler)
         (search_key cookie : pystr) (equity_threshold : option Z)
         (max_workers : Z) (st : state),
    (forall info, fst (get_ent_info w search_key cookie st) <> Ok (Some info)) ->
    snd (fetch_official_website w schedule search_key cookie equity_threshold
           max_workers st)
    = snd (get_ent_info w search_key cookie st)
    /\ log (snd (fetch_official_website w schedule search_key cookie
                   equity_threshold max_workers st))
       = log st ++ [PostSearch search_key cookie]
    /\ cache (snd (fetch_official_website w schedule search_key cookie
                     equity_threshold max_workers st))
       = cache st
    /\ (fst (get_ent_info w search_key cookie st) = Ok None ->
        fst (fetch_official_website w schedule search_key cookie
               equity_threshold max_workers st)
        = Ok (mk_result JNull None [])).
Proof.
  intros w schedule search_key cookie equity_threshold max_workers st Hno.
  destruct (get_ent_info_frame w search_key cookie st) as (Hl & Hc & _).
  unfold fetch_official_website. rewrite bind_run.
  destruct (get_ent_info w search_key cookie st) as [[[info|]|e] st1];
    cbn [fst snd] in *.
  - now elim (Hno info).
  - unfold ret. cbn [fst snd]. repeat split; assumption.
  - repeat split; try assumption. discriminate.
Qed.

Lemma get_ent_info_request_failed w search_key cookie st :
  post_json w (List.length (log st)) (PostSearch search_key cookie) = None ->
  fst (get_ent_info w search_key cookie st) = Ok None.
Proof.
  intros H. unfold get_ent_info. rewrite bind_run. unfold http_post at 1.
  now rewrite H.
Qed.

Lemma get_ent_info_empty_list w search_key cookie st data d ent_list :
  post_json w (List.length (log st)) (PostSearch search_key cookie)
  = Some data ->
  getitem data (str "data") = Ok d ->
  getitem d (str "list") = Ok ent_list ->
  truthy ent_list = false ->
  fst (get_ent_info w search_key cookie st) = Ok None.
Proof.
  intros H Hd Hl Ht. unfold get_ent_info. rewrite bind_run.
  unfold http_post at 1. rewrite H. unfold try_except.
  rewrite !bind_run, Hd. unfold lift at 1. rewrite bind_run, Hl.
  unfold lift at 1. now rewrite Ht.
Qed.

Lemma get_ent_info_missing_field w search_key cookie st data :
  post_json w (List.length (log st)) (PostSearch search_key cookie)
  = Some data ->
  getitem data (str "data") = Raise KeyError
  \/ (exists d, getitem data (str "data") = Ok d
                /\ getitem d (str "list") = Raise KeyError) ->
  fst (get_ent_info w search_key cookie st) = Ok None.
Proof.
  intros H Hd. unfold get_ent_info. rewrite bind_run.
  unfold http_post at 1. rewrite H. unfold try_except. rewrite !bind_run.
  destruct Hd as [Hd|(d & Hd & Hl)]; rewrite Hd; unfold lift at 1.
  - reflexivity.
  - rewrite bind_run, Hl. reflexivity.
Qed.

(** X23: the resolver returns None when the search request fails, when the
    result list is empty and when the payload or the list is missing from
    the response.  Whenever it returns None the lookup yields the result
    without parent, website and children; that result has a parent row, the
    report of a run on that key alone is the header and that row, and every
    result of a run has its parent row in the report. *)
Theorem unresolved_key_still_reported :
  forall (w : world) (schedule : scheduler)
         (search_key cookie : pystr) (equity : Z) (threads : Z) (st : state),
    (post_json w (List.length (log st)) (PostSearch search_key cookie) = None
     \/ (exists data,
            post_json w (List.length (log st)) (PostSearch search_key cookie)
            = Some data
            /\ (getitem data (str "data") = Raise KeyError
                \/ exists d,
                     getitem data (str "data") = Ok d
                     /\ (getitem d (str "list") = Raise KeyError
                         \/ exists ent_list,
                              getitem d (str "list") = Ok ent_list
                              /\ truthy ent_list = false))) ->
     fst (get_ent_info w search_key cookie st) = Ok None)
    /\ (fst (get_ent_info w search_key cookie st) = Ok None ->
        fst (fetch_official_website w schedule search_key cookie (Some equity)
               threads st) = Ok (mk_result JNull None [])
        /\ result_rows (mk_result JNull None [])
           = [[CValue JNull; CText []; CText []]]
        /\ fst (main w schedule cookie equity threads [search_key] st)
           = Ok [fieldnames; [CValue JNull; CText []; CText []]]
        /\ (forall results r,
               In r results -> In (parent_row r) (save_to_csv results))).
Proof.
  intros w schedule search_key cookie equity threads st. split.
  - intros [H|(data & H & [Hd|(d & Hd & [Hl|(ent_list & Hl & Ht)])])].
    + now apply get_ent_info_request_failed.
    + eapply get_ent_info_missing_field; eauto.
    + eapply get_ent_info_missing_field; eauto.
    + eapply get_ent_info_empty_list; eauto.
  - intros Hnone.
    assert (Hf : fetch_official_website w schedule search_key cookie
                   (Some equity) threads st
                 = (Ok (mk_result JNull None []),
                    snd (get_ent_info w search_key cookie st))).
    { unfold fetch_official_website. rewrite bind_run.
      destruct (get_ent_info w search_key cookie st) as [r st1].
      cbn [fst snd] in *. now subst r. }
    split; [now rewrite Hf|]. split; [reflexivity|]. split.
    + unfold main. rewrite bind_run. cbn [main_loop]. rewrite bind_run, Hf.
      reflexivity.
    + intros results r Hin. unfold save_to_csv. right.
      apply in_flat_map. exists r. split; [exact Hin|now left].
Qed.

(** C8 fails on the code for one kind of resolver failure: when the search
    response is not an object, or its payload is not one (a null payload,
    for instance), the resolver raises TypeError, which its handler for
    KeyError and IndexError does not catch.  The lookup then yields no
    result at all, and a run that reaches this key writes no report. *)
Theorem resolver_type_error_aborts_lookup :
  forall (w : world) (schedule : scheduler) (search_key cookie : pystr)
         (equity : Z) (threads : Z) (keys : list pystr) (st : state)
         (data : json),
    post_json w (List.length (log st)) (PostSearch search_key cookie)
    = Some data ->
    (getitem data (str "data") = Raise TypeError
     \/ exists d, getitem data (str "data") = Ok d
                  /\ getitem d (str "list") = Raise TypeError) ->
    fst (get_ent_info w search_key cookie st) = Raise TypeError
    /\ fst (fetch_official_website w schedule search_key cookie (Some equity)
              threads st) = Raise TypeError
    /\ fst (main w schedule cookie equity threads (search_key :: keys) st)
       = Raise TypeError.
Proof.
  intros w schedule search_key cookie equity threads keys st data Hp Hd.
  assert (E : fst (get_ent_info w search_key cookie st) = Raise TypeError).
  { unfold get_ent_info. rewrite bind_run. unfold http_post at 1.
    rewrite Hp. unfold try_except. rewrite !bind_run.
    destruct Hd as [Hd|(d & Hd & Hl)]; rewrite Hd; unfold lift at 1.
    - reflexivity.
    - rewrite bind_run, Hl. reflexivity. }
  assert (F : fst (fetch_official_website w schedule search_key cookie
                     (Some equity) threads st) = Raise TypeError).
  { unfold fetch_official_website. rewrite bind_run.
    destruct (get_ent_info w search_key cookie st) as [r st1].
    cbn [fst] in E. now subst r. }
  split; [exact E|]. split; [exact F|].
  unfold main. rewrite bind_run. cbn [main_loop]. rewrite bind_run.
  destruct (fetch_official_website w schedule search_key cookie
              (Some equity) threads st) as [r st1].
  cbn [fst] in F. now subst r.
Qed.

(** ** The website link *)

(** C7: an address that starts with two slashes gets the scheme [http:] in
    front, so that it starts with [http://]; any other address is returned
    as it is; and the extractor returns the normalized form of the address
    the page parser finds after the marker. *)
Theorem href_normalized :
  (forall href,
      startswith href (str "//") = true ->
      normalize_href href = str "http:" ++ href
      /\ startswith (normalize_href href) (str "http://") = true)
  /\ (forall href,
         startswith href (str "//") = false -> normalize_href href = href)
  /\ normalize_href (str "//cdn.example.com/site")
     = str "http://cdn.example.com/site"
  /\ normalize_href (str "https://example.com") = str "https://example.com"
  /\ (forall w n s i c st html href,
         quote n = Ok s ->
         get_text w (List.length (log st)) (GetPage s i c) = Some html ->
         find html marker <> -1 ->
         soup_find_a_href w (slice html (find html marker) 1000)
         = Ok (Some href) ->
         fst (get_official_website_uncached w n i c st)
         = Ok (Some (normalize_href href))
         /\ (hashable n = true -> hashable i = true ->
             cache_find (n, i, c) (cache st) = None ->
             fst (get_official_website w n i c st)
             = Ok (Some (normalize_href href)))).
Proof.
  split; [|split; [|split; [|split]]].
  - intros href H. unfold normalize_href. rewrite H. split; [reflexivity|].
    change (str "//") with [47; 47] in H.
    destruct href as [|a [|b r]]; cbn [startswith] in H; try discriminate.
    + rewrite andb_false_r in H. discriminate.
    + apply andb_true_iff in H as [Ha Hb].
      apply andb_true_iff in Hb as [Hb _].
      apply Z.eqb_eq in Ha, Hb. subst a b. reflexivity.
  - intros href H. unfold normalize_href. now rewrite H.
  - reflexivity.
  - reflexivity.
  - intros w n s i c st html href Hq Hg Hf Hs.
    assert (E : get_official_website_uncached w n i c st
                = (Ok (Some (normalize_href href)),
                   mk_state (log st ++ [GetPage s i c]) (cache st)
                            (console st))).
    { unfold get_official_website_uncached. rewrite bind_run.
      unfold lift at 1. rewrite Hq, bind_run. unfold http_get at 1.
      rewrite Hg. unfold read_page. apply Z.eqb_neq in Hf.
      rewrite Hf, Hs. reflexivity. }
    split; [now rewrite E|].
    intros Hn Hi Hc. unfold get_official_website.
    rewrite Hn, Hi, Hc, E. reflexivity.
Qed.

(** ** The extractor never raises on a string *)




(** ** The cache *)

Lemma pystr_eqb_eq a b : pystr_eqb a b = true <-> a = b.
Proof.
  unfold pystr_eqb. destruct (list_eq_dec Z.eq_dec a b); split; congruence.
Qed.

Lemma py_eqb_str_l s x : py_eqb (JStr s) x = true -> x = JStr s.
Proof.
  destruct x as [| | |f| | |]; try destruct f; cbn; try discriminate.
  intros H. apply pystr_eqb_eq in H. now subst.
Qed.

Lemma py_eqb_str_r s x : py_eqb x (JStr s) = true -> x = JStr s.
Proof.
  destruct x as [|b|z|f|t| |]; try destruct f; try destruct b; cbn;
    try discriminate.
  intros H. apply pystr_eqb_eq in H. now subst.
Qed.

Lemma key_eqb_string_refl n i c : key_eqb (JStr n, JStr i, c) (JStr n, JStr i, c) = true.
Proof.
  cbn. rewrite !(proj2 (pystr_eqb_eq _ _) eq_refl). reflexivity.
Qed.

Lemma key_eqb_string_l n i c k :
  key_eqb (JStr n, JStr i, c) k = true -> k = (JStr n, JStr i, c).
Proof.
  destruct k as [[n' i'] c']. unfold key_eqb. intros H.
  apply andb_true_iff in H as [H Hc]. apply andb_true_iff in H as [Hn Hi].
  apply py_eqb_str_l in Hn, Hi. apply pystr_eqb_eq in Hc. now subst.
Qed.

Lemma key_eqb_string_r n i c k :
  key_eqb k (JStr n, JStr i, c) = true -> k = (JStr n, JStr i, c).
Proof.
  destruct k as [[n' i'] c']. unfold key_eqb. intros H.
  apply andb_true_iff in H as [H Hc]. apply andb_true_iff in H as [Hn Hi].
  apply py_eqb_str_r in Hn, Hi. apply pystr_eqb_eq in Hc. now subst.
Qed.

Lemma hit_cache_find k c p v :
  hit k c = Some (p, v) ->
  exists e rest, cache_find k c = Some (e, rest) /\ snd e = v.
Proof.
  revert p. induction c as [|x c IH]; intros p H; [discriminate|].
  cbn [hit cache_find] in *. destruct (key_eqb k (fst x)).
  - injection H as _ <-. eauto.
  - destruct (hit k c) as [[p0 v0]|]; [|discriminate].
    injection H as _ <-. destruct (IH _ eq_refl) as (e & rest & -> & Hv).
    eauto.
Qed.

Lemma hit_bound k c p v : hit k c = Some (p, v) -> (p < List.length c)%nat.
Proof.
  revert p. induction c as [|x c IH]; intros p H; [discriminate|].
  cbn [hit List.length] in *. destruct (key_eqb k (fst x)).
  - injection H as <- _. lia.
  - destruct (hit k c) as [[p0 v0]|]; [|discriminate].
    injection H as <- <-. specialize (IH _ eq_refl). lia.
Qed.

Lemma hit_cons k x c :
  hit k (x :: c)
  = if key_eqb k (fst x) then Some (0%nat, snd x)
    else match hit k c with
         | Some (p, v) => Some (S p, v)
         | None => None
         end.
Proof. reflexivity. Qed.

Lemma hit_removelast k c p v :
  hit k c = Some (p, v) -> (S p < List.length c)%nat ->
  hit k (removelast c) = Some (p, v).
Proof.
  revert p. induction c as [|x c IH]; intros p H Hl; [discriminate|].
  destruct c as [|y c]; [cbn in Hl; lia|].
  change (removelast (x :: y :: c)) with (x :: removelast (y :: c)).
  rewrite hit_cons in H |- *. destruct (key_eqb k (fst x)); [exact H|].
  destruct (hit k (y :: c)) as [[p0 v0]|] eqn:E; [|discriminate].
  injection H as <- <-. cbn [List.length] in Hl.
  rewrite (IH p0 eq_refl); [reflexivity|cbn [List.length]; lia].
Qed.

(** A hit on any key leaves an entry for a string key in the cache, at most
    one place further back. *)
Lemma hit_after_move n i c k' cch : forall e rest p v,
  cache_find k' cch = Some (e, rest) ->
  hit (JStr n, JStr i, c) cch = Some (p, v) ->
  exists p', hit (JStr n, JStr i, c) (e :: rest) = Some (p', v)
             /\ (p' <= S p)%nat.
Proof.
  set (k := (JStr n, JStr i, c)).
  induction cch as [|x c0 IH]; intros e rest p v F H; [discriminate|].
  cbn [cache_find] in F. destruct (key_eqb k' (fst x)) eqn:Ex.
  - injection F as <- <-. exists p. split; [exact H|lia].
  - destruct (cache_find k' c0) as [[e0 rest0]|] eqn:F0; [|discriminate].
    injection F as <- <-.
    pose proof (cache_find_some _ _ _ _ F0) as (He0 & _).
    cbn [hit] in H. destruct (key_eqb k (fst x)) eqn:Kx.
    + injection H as <- <-.
      assert (Ke : key_eqb k (fst e0) = false).
      { destruct (key_eqb k (fst e0)) eqn:Ke; [|reflexivity].
        apply key_eqb_string_l in Ke, Kx. congruence. }
      exists 1%nat. cbn [hit]. rewrite Ke, Kx. split; [reflexivity|lia].
    + destruct (hit k c0) as [[p0 v0]|] eqn:H0; [|discriminate].
      injection H as <- <-.
      destruct (IH _ _ _ _ eq_refl eq_refl) as (p' & Hp & Hle).
      cbn [hit] in Hp |- *. destruct (key_eqb k (fst e0)).
      * injection Hp as <- <-. exists 0%nat. split; [reflexivity|lia].
      * rewrite Kx. destruct (hit k rest0) as [[p1 v1]|]; [|discriminate].
        injection Hp as <- <-. exists (S (S p1)). split; [reflexivity|lia].
Qed.

Lemma hit_after_store n i c k' site cch p v :
  hit (JStr n, JStr i, c) cch = Some (p, v) ->
  (S p < maxsize)%nat ->
  cache_find k' cch = None ->
  hit (JStr n, JStr i, c) (cache_store (k', site) cch) = Some (S p, v).
Proof.
  intros H Hp F.
  assert (Kn : key_eqb (JStr n, JStr i, c) k' = false).
  { destruct (key_eqb (JStr n, JStr i, c) k') eqn:K; [|reflexivity].
    apply key_eqb_string_l in K. subst k'.
    destruct (hit_cache_find _ _ _ _ H) as (e & rest & F' & _). congruence. }
  unfold cache_store.
  destruct (Nat.ltb_spec (List.length cch) maxsize) as [L|L];
    cbn [hit fst snd]; rewrite Kn.
  - now rewrite H.
  - rewrite (hit_removelast _ _ _ _ H); [reflexivity|].
    unfold maxsize in *. lia.
Qed.

Lemma hit_after_call w n i c n' i' c' st p v :
  hit (JStr n, JStr i, c) (cache st) = Some (p, v) ->
  (S p < maxsize)%nat ->
  exists p',
    hit (JStr n, JStr i, c)
      (cache (snd (get_official_website w n' i' c' st))) = Some (p', v)
    /\ (p' <= S p)%nat.
Proof.
  intros H Hp. unfold get_official_website.
  destruct (negb (hashable n' && hashable i'));
    [exists p; split; [exact H|lia]|].
  destruct (cache_find (n', i', c') (cache st)) as [[e rest]|] eqn:F.
  - cbn [snd cache]. eapply hit_after_move; eassumption.
  - destruct (get_official_website_uncached_frame w n' i' c' st)
      as (Hc & _).
    destruct (get_official_website_uncached w n' i' c' st) as [[site|e] st1];
      cbn [snd cache] in *; [|exists p; split; [congruence|lia]].
    rewrite Hc. exists (S p). split; [|lia].
    now apply hit_after_store.
Qed.

Lemma same_entity_iff n i c :
  same_entity n i c = true <-> name c = JStr n /\ entid c = JStr i.
Proof.
  unfold same_entity. destruct (name c) as [| | | |n'| |];
    try (split; [discriminate|intros [H _]; discriminate]).
  destruct (entid c) as [| | | |i'| |];
    try (split; [discriminate|intros [_ H]; discriminate]).
  rewrite andb_true_iff, !pystr_eqb_eq. split.
  - intros [-> ->]. split; reflexivity.
  - intros [Hn Hi]. injection Hn as ->. injection Hi as ->. split; reflexivity.
Qed.

Lemma filter_elt_length {A} (f : A -> bool) pre x post :
  List.length (filter f (pre ++ x :: post))
  = (List.length (filter f pre) + (if f x then 1 else 0)
     + List.length (filter f post))%nat.
Proof.
  rewrite filter_app, length_app. cbn [filter].
  destruct (f x); cbn [List.length]; lia.
Qed.

(** While a pool runs, every job that returns moves an entry of the cache
    at most one place back; the jobs for the entity of the entry find it. *)
Lemma pool_keeps_entry w n i cookie max_workers picks children st p v :
  existsb is_surrogate n = false ->
  hit (JStr n, JStr i, cookie) (cache st) = Some (p, v) ->
  (p + others n i children < maxsize)%nat ->
  let pool := run_pool w cookie max_workers picks children st in
  (exists p',
      hit (JStr n, JStr i, cookie) (cache (snd pool)) = Some (p', v)
      /\ (p' <= p + others n i children)%nat)
  /\ (forall c r, In (c, r) (fst pool) -> same_entity n i c = true ->
      r = Ok v).
Proof.
  intros Hn H Hp pool. set (k := (JStr n, JStr i, cookie)) in *.
  pose (I := fun (jobs : list job) (s : state) =>
       (exists p',
           hit k (cache s) = Some (p', v)
           /\ (p' + open_others n i jobs <= p + others n i children)%nat)
       /\ (forall c ph, In (c, ph) jobs -> same_entity n i c = true ->
           ph = Queued \/ ph = Returned (Ok v))).
  assert (Hfinal : I (map finished (fst pool)) (snd pool));
    [apply run_pool_stepped; unfold I; clear I|].
  - intros pre j post s j' s' Hstep ((p' & Hh & Hb) & Hk).
    unfold open_others in *. rewrite filter_elt_length in Hb |- *.
    assert (Hrest : forall c ph ph',
               In (c, ph) (pre ++ (c, ph') :: post) ->
               (c, ph) = (c, ph')
               \/ In (c, ph) (pre ++ j :: post)).
    { intros c ph ph' Hin. apply in_app_or in Hin as [Hin|[Hin|Hin]].
      - right. apply in_or_app. now left.
      - left. now symmetry.
      - right. apply in_or_app. right. now right. }
    assert (Hother : forall c ph x,
               In (c, ph) (pre ++ x :: post) -> (c, ph) <> x ->
               In (c, ph) (pre ++ j :: post)).
    { intros c ph x Hin Hne. apply in_app_or in Hin as [Hin|[Hin|Hin]].
      - apply in_or_app. now left.
      - now elim Hne.
      - apply in_or_app. right. now right. }
    assert (Hself : forall x, In x (pre ++ x :: post))
      by (intros x; apply in_or_app; right; now left).
    destruct (same_entity n i (fst j)) eqn:Hse.
    + (* a job for the entity itself *)
      pose proof (proj1 (same_entity_iff _ _ _) Hse) as [Sn Si].
      destruct Hstep
        as [c r s|c e s Hw|c s entry rest F|c x s _ _ F Q|c x s
            |c response site s lines cache' Hs Hlines Hcache];
        cbn [fst snd cache] in *; rewrite ?Hse in *;
        rewrite ?andb_false_r in *.
      * split; [exists p'; split; assumption|exact Hk].
      * exfalso. unfold well_named, encodable_name in Hw.
        rewrite Sn, Si, Hn in Hw. discriminate.
      * rewrite Sn, Si in F. fold k in F.
        destruct (hit_cache_find _ _ _ _ Hh) as (e0 & rest0 & F0 & Hv).
        rewrite F0 in F. injection F as <- <-.
        apply cache_find_some in F0 as (K & _).
        split.
        -- exists 0%nat. cbn [hit]. rewrite K, Hv.
           split; [reflexivity|lia].
        -- intros c0 ph Hin Hs0.
           destruct (list_eq_dec Z.eq_dec [] []) as [_|N]; [|now elim N].
           apply in_app_or in Hin as [Hin|[Hin|Hin]].
           ++ apply (Hk c0 ph); [apply in_or_app; now left|exact Hs0].
           ++ injection Hin as <- <-. right. now rewrite Hv.
           ++ apply (Hk c0 ph); [apply in_or_app; right; now right|exact Hs0].
      * exfalso. rewrite Sn, Si in F. fold k in F.
        destruct (hit_cache_find _ _ _ _ Hh) as (e0 & rest0 & F0 & _).
        congruence.
      * exfalso. destruct (Hk c (Fetching x) (Hself _) Hse); discriminate.
      * exfalso. destruct (Hk c (Fetched response) (Hself _) Hse); discriminate.
    + (* a job for another entity *)
      destruct Hstep
        as [c r s|c e s Hw|c s entry rest F|c x s _ _ F Q|c x s
            |c response site s lines cache' Hs Hlines Hcache];
        cbn [fst snd cache returned negb andb] in *; rewrite ?Hse in *;
        cbn [negb andb] in *.
      * split; [exists p'; split; assumption|exact Hk].
      * split; [exists p'; split; [assumption|lia]|].
        intros c0 ph Hin Hs0. apply (Hk c0 ph); [|exact Hs0].
        eapply Hother; [exact Hin|]. intros E. injection E as -> _. congruence.
      * destruct (hit_after_move n i cookie _ _ _ _ _ _ F Hh)
          as (p2 & Hh2 & Hle).
        split; [exists p2; split; [exact Hh2|lia]|].
        intros c0 ph Hin Hs0. apply (Hk c0 ph); [|exact Hs0].
        eapply Hother; [exact Hin|]. intros E. injection E as -> _. congruence.
      * split; [exists p'; split; [assumption|lia]|].
        intros c0 ph Hin Hs0. apply (Hk c0 ph); [|exact Hs0].
        eapply Hother; [exact Hin|]. intros E. injection E as -> _. congruence.
      * split; [exists p'; split; [assumption|lia]|].
        intros c0 ph Hin Hs0. apply (Hk c0 ph); [|exact Hs0].
        eapply Hother; [exact Hin|]. intros E. injection E as -> _. congruence.
      * split.
        -- destruct Hcache as [->|[F ->]].
           ++ exists p'. split; [assumption|lia].
           ++ exists (S p'). split; [|lia].
              apply hit_after_store; [exact Hh|lia|exact F].
        -- intros c0 ph Hin Hs0. apply (Hk c0 ph); [|exact Hs0].
           eapply Hother; [exact Hin|]. intros E. injection E as -> _.
           congruence.
  - split.
    + exists p. split; [exact H|].
      assert (E : open_others n i (map (fun c => (c, Queued)) children)
                  = others n i children).
      { unfold open_others, others. clear.
        induction children as [|c l IH]; [reflexivity|].
        cbn [map filter fst returned snd negb andb].
        destruct (same_entity n i c); cbn [negb List.length]; now rewrite IH. }
      rewrite E. lia.
    + intros c ph Hin _. apply in_map_iff in Hin as (c0 & E & _).
      injection E as _ <-. now left.
  - unfold I in Hfinal. destruct Hfinal as ((p' & Hh & Hb) & Hk). split.
    + exists p'. split; [exact Hh|lia].
    + intros c r Hin Hs.
      destruct (Hk c (Returned r)) as [E|E]; [|exact Hs|discriminate|].
      * apply in_map_iff. exists (c, r). split; [reflexivity|exact Hin].
      * now injection E as ->.
Qed.

(** The same, for a pool and an entry of any credential. *)
Lemma pool_keeps_position w n i c cookie max_workers picks children st p v :
  hit (JStr n, JStr i, c) (cache st) = Some (p, v) ->
  (p + List.length children < maxsize)%nat ->
  exists p',
    hit (JStr n, JStr i, c)
      (cache (snd (run_pool w cookie max_workers picks children st)))
    = Some (p', v)
    /\ (p' <= p + List.length children)%nat.
Proof.
  intros H Hp. set (k := (JStr n, JStr i, c)) in *.
  pose (I := fun (jobs : list job) (s : state) =>
       exists p',
         hit k (cache s) = Some (p', v)
         /\ (p' + open_jobs jobs <= p + List.length children)%nat).
  assert (Hfinal : I (map finished
                        (fst (run_pool w cookie max_workers picks children st)))
                     (snd (run_pool w cookie max_workers picks children st)));
    [apply run_pool_stepped; unfold I; clear I|].
  - intros pre j post s j' s' Hstep (p' & Hh & Hb).
    unfold open_jobs in *. rewrite filter_elt_length in Hb |- *.
    destruct Hstep
      as [c1 r s|c1 e s Hw|c1 s entry rest F|c1 x s _ _ F Q|c1 x s
          |c1 response site s lines cache' Hs Hlines Hcache];
      cbn [fst snd cache returned negb] in *.
    + exists p'. split; assumption.
    + exists p'. split; [assumption|lia].
    + destruct (hit_after_move n i c _ _ _ _ _ _ F Hh) as (p2 & Hh2 & Hle).
      exists p2. split; [exact Hh2|lia].
    + exists p'. split; [assumption|lia].
    + exists p'. split; [assumption|lia].
    + destruct Hcache as [->|[F ->]].
      * exists p'. split; [assumption|lia].
      * exists (S p'). split; [|lia].
        apply hit_after_store; [exact Hh|lia|exact F].
  - exists p. split; [exact H|].
    assert (E : open_jobs (map (fun c => (c, Queued)) children)
                = List.length children).
    { unfold open_jobs. clear.
      induction children as [|x l IH]; [reflexivity|].
      cbn [map filter returned snd negb List.length]. now rewrite IH. }
    rewrite E. lia.
  - destruct Hfinal as (p' & Hh & Hb). exists p'. split; [exact Hh|lia].
Qed.

Lemma others_le n i children :
  (others n i children <= List.length children)%nat.
Proof. unfold others. apply filter_length_le. Qed.

Lemma run_call_cache_length w cl st :
  (List.length (cache st) <= maxsize)%nat ->
  (List.length (cache (run_call w cl st)) <= maxsize)%nat.
Proof.
  intros H. destruct cl as [k c|i c t|n i c|children c max_workers picks];
    cbn [run_call].
  - destruct (get_ent_info_frame w k c st) as (_ & -> & _). exact H.
  - destruct (query_equity_investment_frame w i c t st) as (_ & -> & _).
    exact H.
  - now apply get_official_website_frame.
  - now apply run_pool_frame.
Qed.

Lemma run_calls_cache_length w calls : forall st,
  (List.length (cache st) <= maxsize)%nat ->
  (List.length (cache (run_calls w calls st)) <= maxsize)%nat.
Proof.
  induction calls as [|cl calls IH]; intros st H; [exact H|].
  cbn [run_calls fold_left]. apply IH. now apply run_call_cache_length.
Qed.

Lemma website_calls_cons cl calls :
  website_calls (cl :: calls) = (extractor_calls cl + website_calls calls)%nat.
Proof. reflexivity. Qed.

Lemma hit_after_calls w n i c calls : forall st p v,
  existsb is_surrogate n = false ->
  hit (JStr n, JStr i, c) (cache st) = Some (p, v) ->
  (p + website_calls calls < maxsize)%nat ->
  exists p',
    hit (JStr n, JStr i, c) (cache (run_calls w calls st)) = Some (p', v)
    /\ (p' <= p + website_calls calls)%nat.
Proof.
  induction calls as [|cl calls IH]; intros st p v Hn H Hp;
    [exists p; split; [exact H|lia]|].
  cbn [run_calls fold_left]. fold (run_calls w calls (run_call w cl st)).
  rewrite website_calls_cons in *.
  destruct cl as [k c0|i0 c0 t|n0 i0 c0|children c0 max_workers picks];
    cbn [run_call extractor_calls] in *.
  - destruct (get_ent_info_frame w k c0 st) as (_ & Hc & _).
    destruct (IH (snd (get_ent_info w k c0 st)) p v Hn) as (p' & Hh & Hle);
      [now rewrite Hc|exact Hp|].
    exists p'. split; [exact Hh|lia].
  - destruct (query_equity_investment_frame w i0 c0 t st) as (_ & Hc & _).
    destruct (IH (snd (query_equity_investment w i0 c0 t st)) p v Hn)
      as (p' & Hh & Hle); [now rewrite Hc|exact Hp|].
    exists p'. split; [exact Hh|lia].
  - destruct (hit_after_call w n i c n0 i0 c0 st p v H ltac:(lia))
      as (p1 & Hh1 & Hle1).
    destruct (IH _ p1 v Hn Hh1 ltac:(lia)) as (p' & Hh & Hle).
    exists p'. split; [exact Hh|lia].
  - destruct (pool_keeps_position w n i c c0 max_workers picks children st
                p v H ltac:(lia)) as (p1 & Hh1 & Hle1).
    destruct (IH _ p1 v Hn Hh1 ltac:(lia)) as (p' & Hh & Hle).
    exists p'. split; [exact Hh|lia].
Qed.

Lemma first_call_hit w n i c st :
  existsb is_surrogate n = false ->
  exists site,
    fst (get_official_website w (JStr n) (JStr i) c st) = Ok site
    /\ hit (JStr n, JStr i, c)
         (cache (snd (get_official_website w (JStr n) (JStr i) c st)))
       = Some (0%nat, site).
Proof.
  intros Hn. unfold get_official_website. cbn [hashable andb negb].
  destruct (cache_find (JStr n, JStr i, c) (cache st)) as [[e rest]|] eqn:F.
  - exists (snd e). cbn [fst snd cache]. split; [reflexivity|].
    apply cache_find_some in F as (K & _). cbn [hit]. now rewrite K.
  - destruct (get_official_website_uncached_frame w (JStr n) (JStr i) c st)
      as (Hc & _ & _ & Ht).
    destruct Ht as [site Hs]; [cbn; now rewrite Hn|].
    destruct (get_official_website_uncached w (JStr n) (JStr i) c st)
      as [r st1].
    cbn [fst] in Hs. subst r. exists site. cbn [fst snd cache].
    split; [reflexivity|].
    unfold cache_store.
    destruct (List.length (cache st1) <? maxsize)%nat; cbn [hit fst snd];
      now rewrite key_eqb_string_refl.
Qed.

Lemma cached_call w n i c st p v :
  hit (JStr n, JStr i, c) (cache st) = Some (p, v) ->
  fst (get_official_website w (JStr n) (JStr i) c st) = Ok v
  /\ log (snd (get_official_website w (JStr n) (JStr i) c st)) = log st.
Proof.
  intros H. destruct (hit_cache_find _ _ _ _ H) as (e & rest & F & Hv).
  unfold get_official_website. cbn [hashable andb negb]. rewrite F.
  cbn [fst snd log]. now subst v.
Qed.

(** C4, as amended: the extractor is memoized on the name, the identifier
    and the credential in a cache of at most 128 entries that drops the
    least recently used one.  After a call with a string name and
    identifier that ran on its own has returned, a later call with the same
    name and identifier returns the same result, whether it runs on its own
    (then without any page fetch) or as a job of a pool, as long as fewer
    than 128 extractor calls lie between the two, the calls of pools and
    the other jobs of that pool counted; the cache never holds more than
    128 entries. *)
Theorem website_memoized_while_recent :
  forall (w : world) (n i cookie : pystr) (calls : list call) (st : state),
    existsb is_surrogate n = false ->
    (website_calls calls < maxsize)%nat ->
    (List.length (cache st) <= maxsize)%nat ->
    let first := get_official_website w (JStr n) (JStr i) cookie st in
    let st2 := run_calls w calls (snd first) in
    let second := get_official_website w (JStr n) (JStr i) cookie st2 in
    (exists site,
        fst first = Ok site /\ fst second = Ok site
        /\ forall max_workers picks children c r,
             (website_calls calls + List.length children <= maxsize)%nat ->
             In (c, r)
               (fst (run_pool w cookie max_workers picks children st2)) ->
             name c = JStr n -> entid c = JStr i ->
             r = Ok site)
    /\ log (snd second) = log st2
    /\ (List.length (cache (snd second)) <= maxsize)%nat.
Proof.
  intros w n i cookie calls st Hn Hcalls Hlen first st2 second.
  destruct (first_call_hit w n i cookie st Hn) as (site & Hf & Hh).
  fold first in Hf, Hh.
  destruct (hit_after_calls w n i cookie calls (snd first) 0%nat site Hn Hh
              ltac:(lia)) as (p' & Hh2 & Hle).
  fold st2 in Hh2.
  destruct (cached_call w n i cookie st2 p' site Hh2) as (Hs & Hl).
  fold second in Hs, Hl.
  split; [exists site; split; [assumption|split; [assumption|]]|].
  - intros max_workers picks children c r Hb Hin Hcn Hci.
    assert (Hse : same_entity n i c = true)
      by (apply same_entity_iff; now split).
    assert (Hc : In c children).
    { rewrite <- (run_pool_children w cookie max_workers picks children st2).
      apply in_map_iff. exists (c, r). split; [reflexivity|exact Hin]. }
    assert (Ho : (others n i children < List.length children)%nat).
    { unfold others. clear -Hc Hse.
      induction children as [|x l IH]; [now elim Hc|].
      cbn [filter List.length]. destruct Hc as [->|Hc].
      - rewrite Hse. cbn [negb].
        pose proof (filter_length_le
                      (fun c0 => negb (same_entity n i c0)) l). lia.
      - specialize (IH Hc).
        destruct (negb (same_entity n i x)); cbn [List.length]; lia. }
    destruct (pool_keeps_entry w n i cookie max_workers picks children st2
                p' site Hn Hh2 ltac:(lia)) as (_ & Hk).
    apply (Hk c r Hin Hse).
  - split; [exact Hl|].
    unfold second. apply get_official_website_frame.
    unfold st2. apply run_calls_cache_length.
    unfold first. now apply get_official_website_frame.
Qed.

(** ** The properties at concrete inputs *)





(** C3 fails on the code: a percentage with two dots, a child without a
    name and a null search payload each raise an exception that nothing
    catches; the run of two keys stops at the first one, the second key is
    never searched and no report is returned. *)
Theorem parse_errors_abort_batch :
  main (registry [entry_two_dots]) in_order (str "c") 0 5
    [str "k1"; str "k2"] initial_state
  = (Raise ValueError,
     mk_state [PostSearch (str "k1") (str "c");
               GetPage (str "P") (JStr (str "0")) (str "c");
               PostEquity (JStr (str "0")) (str "c")]
              [((JStr (str "P"), JStr (str "0"), str "c"), None)]
              [MsgPageRequestFailed])
  /\ main (registry [entry_nameless]) in_order (str "c") 0 5
       [str "k1"; str "k2"] initial_state
     = (Raise KeyError,
        mk_state [PostSearch (str "k1") (str "c");
                  GetPage (str "P") (JStr (str "0")) (str "c");
                  PostEquity (JStr (str "0")) (str "c")]
                 [((JStr (str "P"), JStr (str "0"), str "c"), None)]
                 [MsgPageRequestFailed])
  /\ main null_registry in_order (str "c") 0 5
       [str "k1"; str "k2"] initial_state
     = (Raise TypeError,
        mk_state [PostSearch (str "k1") (str "c")] [] []).
Proof. vm_compute. repeat split. Qed.

Lemma website_memoized_while_recent_witness :
  fst (get_official_website changing_site (company 0) (JStr (str "id"))
         (str "c")
         (run_calls changing_site (firstn 127 other_companies)
            (snd (get_official_website changing_site (company 0)
                    (JStr (str "id")) (str "c") initial_state))))
  = Ok (Some [0]).
Proof.
  destruct (website_memoized_while_recent changing_site [1000] (str "id")
              (str "c") (firstn 127 other_companies) initial_state)
    as [[site [H1 [H2 _]]] _].
  - reflexivity.
  - apply Nat.ltb_lt. vm_compute. reflexivity.
  - apply Nat.leb_le. reflexivity.
  - vm_compute in H1. injection H1 as <-. exact H2.
Defined.

(** C4 as stated fails: after 128 other companies were looked up, a second
    lookup of the first company fetches its page again and returns another
    website; the cache holds 128 entries although 129 companies were
    queried.  And two calls for one company that run in a pool at the same
    time both miss the cache, both fetch the page and return different
    websites. *)
Lemma cache_evicts_after_128 :
  fst (get_official_website changing_site (company 0) (JStr (str "id"))
         (str "c") initial_state)
  = Ok (Some [0])
  /\ fst (get_official_website changing_site (company 0) (JStr (str "id"))
            (str "c")
            (run_calls changing_site other_companies
               (snd (get_official_website changing_site (company 0)
                       (JStr (str "id")) (str "c") initial_state))))
     = Ok (Some [129])
  /\ List.length
       (filter (is_page_request_for [1000])
          (log (snd (get_official_website changing_site (company 0)
                       (JStr (str "id")) (str "c")
                       (run_calls changing_site other_companies
                          (snd (get_official_website changing_site
                                  (company 0) (JStr (str "id")) (str "c")
                                  initial_state)))))))
     = 2%nat
  /\ List.length
       (cache (snd (get_official_website changing_site (company 0)
                      (JStr (str "id")) (str "c")
                      (run_calls changing_site other_companies
                         (snd (get_official_website changing_site
                                 (company 0) (JStr (str "id")) (str "c")
                                 initial_state))))))
     = 128%nat
  /\ run_pool changing_site (str "c") 2 (interleaving in_turn 0)
       [twin; twin] initial_state
     = ([(twin, Ok (Some [0])); (twin, Ok (Some [1]))],
        mk_state [GetPage [1000] (JStr (str "id")) (str "c");
                  GetPage [1000] (JStr (str "id")) (str "c")]
                 [((company 0, JStr (str "id"), str "c"), Some [0])]
                 []).
Proof. vm_compute. repeat split. Qed.

Lemma threshold_out_of_range_skips_query_witness :
  (150 < 0 \/ 100 < 150)
  /\ filter is_equity_request
       (log (snd (fetch_official_website (registry [entry_a]) in_order
                    (str "k") (str "c") (Some 150) 5 initial_state)))
     = filter is_equity_request (log initial_state).
Proof.
  split; [right; reflexivity|].
  apply (threshold_out_of_range_skips_query (registry [entry_a]) in_order
           (str "k") (str "c") 150 5 initial_state).
  right. reflexivity.
Defined.

Lemma ownership_at_least_threshold_witness :
  (forall t A (l : list A), Permutation (yield_order reversed t A l) l)
  /\ Forall (fun c => 60 <= funded_ratio c) [record_c].
Proof.
  assert (Hperm : forall t A (l : list A),
             Permutation (yield_order reversed t A l) l)
    by (intros t A l; apply Permutation_sym, Permutation_rev).
  split; [exact Hperm|].
  apply (proj1
           (proj2 (ownership_at_least_threshold
                     (registry [entry_a; entry_b; entry_c]) reversed
                     (str "k") (str "c") (JStr (str "0")) 60 5 initial_state
                     Hperm)
              (mk_result (JStr (str "P")) None [record_c])
              (snd (fetch_official_website
                      (registry [entry_a; entry_b; entry_c]) reversed
                      (str "k") (str "c") (Some 60) 5 initial_state))
              ltac:(vm_compute; reflexivity))).
Defined.

Lemma href_normalized_witness :
  normalize_href (str "//a.b") = str "http:" ++ str "//a.b"
  /\ fst (get_official_website_uncached changing_site (company 0)
            (JStr (str "id")) (str "c") initial_state)
     = Ok (Some (normalize_href [0])).
Proof.
  destruct href_normalized as (H1 & _ & _ & _ & H5). split.
  - apply (H1 (str "//a.b")). reflexivity.
  - assert (Hf : find (marker ++ [0]) marker <> -1)
      by (vm_compute; discriminate).
    exact (proj1 (H5 changing_site (company 0) [1000] (JStr (str "id"))
                    (str "c") initial_state (marker ++ [0]) [0]
                    eq_refl eq_refl Hf eq_refl)).
Defined.

Lemma unresolved_key_still_reported_witness :
  fst (main empty_registry in_order (str "c") 0 5 [str "NoSuchCo"]
         initial_state)
  = Ok [fieldnames; [CValue JNull; CText []; CText []]].
Proof.
  destruct (unresolved_key_still_reported empty_registry in_order
              (str "NoSuchCo") (str "c") 0 5 initial_state) as [Hnone Hrow].
  apply Hrow, Hnone. right.
  exists (JObj [(str "data", JObj [(str "list", JArr [])])]).
  split; [reflexivity|]. right.
  exists (JObj [(str "list", JArr [])]). split; [reflexivity|]. right.
  exists (JArr []). split; reflexivity.
Defined.

Lemma resolver_type_error_aborts_lookup_witness :
  fst (fetch_official_website null_registry in_order (str "k") (str "c")
         (Some 0) 5 initial_state)
  = Raise TypeError.
Proof.
  apply (proj1 (proj2 (resolver_type_error_aborts_lookup null_registry
                         in_order (str "k") (str "c") 0 5 [] initial_state
                         (JObj [(str "code", JInt 401); (str "data", JNull)])
                         eq_refl
                         (or_intror
                            (ex_intro _ JNull (conj eq_refl eq_refl)))))).
Defined.



Lemma unresolved_key_short_circuits_witness :
  log (snd (fetch_official_website empty_registry in_order
              (str "NoSuchCo") (str "c") (Some 0) 5 initial_state))
  = log initial_state ++ [PostSearch (str "NoSuchCo") (str "c")].
Proof.
  apply (unresolved_key_short_circuits empty_registry in_order
           (str "NoSuchCo") (str "c") (Some 0) 5 initial_state).
  intros info H. vm_compute in H. discriminate H.
Defined.

(** * Further properties of the code *)

(** ** The resolver *)




(** X2: when the result list is a non-empty list whose first element is a
    dict with a name and an identifier, the resolver returns those two,
    whatever follows in the list. *)
Theorem get_ent_info_first_match :
  forall (w : world) (search_key cookie : pystr) (st : state)
         (data d : json) (kvs : list (pystr * json)) (others : list json)
         (n i : json),
    post_json w (List.length (log st)) (PostSearch search_key cookie)
    = Some data ->
    getitem data (str "data") = Ok d ->
    getitem d (str "list") = Ok (JArr (JObj kvs :: others)) ->
    assoc (str "entName") kvs = Some n ->
    assoc (str "entid") kvs = Some i ->
    fst (get_ent_info w search_key cookie st) = Ok (Some (n, i)).
Proof.
  intros w search_key cookie st data d kvs others n i H Hd Hl Hn Hi.
  unfold get_ent_info. rewrite bind_run. unfold http_post at 1. rewrite H.
  unfold try_except. rewrite !bind_run, Hd. unfold lift at 1.
  rewrite bind_run, Hl. unfold lift at 1. cbn [truthy negb].
  rewrite bind_run. unfold lift at 1. cbn [getitem0].
  rewrite bind_run. unfold lift at 1. unfold getitem. rewrite Hn.
  rewrite bind_run. unfold lift at 1. rewrite Hi. reflexivity.
Qed.

Lemma get_ent_info_first_match_witness :
  fst (get_ent_info (registry []) (str "k") (str "c") initial_state)
  = Ok (Some (JStr (str "P"), JStr (str "0"))).
Proof.
  apply (get_ent_info_first_match (registry []) (str "k") (str "c")
           initial_state
           (search_reply (JStr (str "P")) (JStr (str "0")))
           (JObj [(str "list",
                   JArr [JObj [(str "entName", JStr (str "P"));
                               (str "entid", JStr (str "0"))]])])
           [(str "entName", JStr (str "P")); (str "entid", JStr (str "0"))]
           [] (JStr (str "P")) (JStr (str "0")));
    reflexivity.
Defined.

(** ** One request per call *)

Lemma get_official_website_log w n i c st :
  log (snd (get_official_website w n i c st)) = log st
  \/ exists s, n = JStr s
               /\ log (snd (get_official_website w n i c st))
                  = log st ++ [GetPage s i c].
Proof.
  unfold get_official_website.
  destruct (negb (hashable n && hashable i)); [now left|].
  destruct (cache_find (n, i, c) (cache st)) as [[entry rest]|];
    [now left|].
  assert (H : log (snd (get_official_website_uncached w n i c st)) = log st
              \/ exists s, n = JStr s
                           /\ log (snd (get_official_website_uncached
                                          w n i c st))
                              = log st ++ [GetPage s i c]).
  { destruct (get_official_website_uncached w n i c st) as [r st'] eqn:E.
    cbn [snd]. unfold get_official_website_uncached in E.
    rewrite bind_run in E. unfold lift at 1 in E.
    destruct (quote n) as [s|e] eqn:Q.
    - right. exists s. split.
      + unfold quote in Q. destruct n; try discriminate.
        destruct (existsb is_surrogate s0); [discriminate|].
        now injection Q as <-.
      + rewrite bind_run in E. unfold http_get at 1 in E.
        match type of E with
        | read_page w ?resp ?s0 = _ =>
            destruct (read_page_quiet w resp s0) as (H1 & _)
        end.
        rewrite E in H1. exact H1.
    - injection E as _ <-. now left. }
  destruct (get_official_website_uncached w n i c st) as [[site|e] st1];
    exact H.
Qed.

(** X3: no call retries.  The resolver sends exactly one search request and
    the graph query exactly one graph request, whatever comes back; the
    extractor sends the page request of its entity once, or nothing at
    all. *)
Theorem one_request_per_call :
  forall (w : world) (st : state),
    (forall k c,
        log (snd (get_ent_info w k c st)) = log st ++ [PostSearch k c])
    /\ (forall i c t,
           log (snd (query_equity_investment w i c t st))
           = log st ++ [PostEquity i c])
    /\ (forall n i c,
           log (snd (get_official_website w n i c st)) = log st
           \/ exists s, n = JStr s
                        /\ log (snd (get_official_website w n i c st))
                           = log st ++ [GetPage s i c]).
Proof.
  intros w st. split; [|split].
  - intros k c. apply get_ent_info_frame.
  - intros i c t. apply query_equity_investment_frame.
  - intros n i c. apply get_official_website_log.
Qed.

(** ** The graph query *)

Lemma equity_loop_body_raise_threshold t1 t2 c r :
  t1 <= t2 ->
  equity_loop_body t1 c = Ok r ->
  equity_loop_body t2 c
  = Ok (match r with
        | Some x => if t2 <=? funded_ratio x then Some x else None
        | None => None
        end).
Proof.
  intros Ht. unfold equity_loop_body.
  destruct (dict_get c (str "fundedRatio") (JStr [])) as [v|]; [|discriminate].
  cbn [rbind]. destruct (str_replace v c_percent) as [s|]; [|discriminate].
  cbn [rbind]. destruct (isdigit (remove_char c_dot s));
    [|intros H; now injection H as <-].
  destruct (py_float s) as [f|]; [|discriminate].
  cbn [rbind]. destruct (py_int f) as [ratio|]; [|discriminate].
  cbn [rbind]. destruct (Z.leb_spec t1 ratio) as [L1|L1].
  - destruct (getitem c (str "entname")) as [n|]; [|discriminate].
    destruct (getitem c (str "entid")) as [i|]; [|discriminate].
    cbn [rbind]. intros H. injection H as <-. cbn [funded_ratio].
    now destruct (t2 <=? ratio).
  - intros H. injection H as <-.
    replace (t2 <=? ratio) with false by (symmetry; apply Z.leb_gt; lia).
    reflexivity.
Qed.

Lemma equity_loop_raise_threshold t1 t2 children : forall acc l1,
  t1 <= t2 ->
  equity_loop t1 children acc = Ok l1 ->
  equity_loop t2 children (filter (fun c => t2 <=? funded_ratio c) acc)
  = Ok (filter (fun c => t2 <=? funded_ratio c) l1).
Proof.
  induction children as [|c rest IH]; intros acc l1 Ht H.
  - cbn in *. now injection H as <-.
  - cbn [equity_loop] in *.
    destruct (equity_loop_body t1 c) as [r|] eqn:E; [|discriminate].
    rewrite (equity_loop_body_raise_threshold _ _ _ _ Ht E).
    cbn [rbind] in *. specialize (IH _ _ Ht H).
    destruct r as [x|]; [|exact IH].
    rewrite filter_app in IH. cbn [filter] in IH.
    destruct (t2 <=? funded_ratio x); [exact IH|].
    now rewrite app_nil_r in IH.
Qed.

(** X4: raising the threshold only removes children.  When the graph
    response is read without error at one threshold, it is read without
    error at every higher one, and the result is the earlier result without
    the children below the higher threshold, in the same order. *)
Theorem raising_threshold_only_removes :
  forall (data : json) (t1 t2 : Z) (l1 : list child),
    t1 <= t2 ->
    equity_results data t1 = Ok l1 ->
    equity_results data t2
    = Ok (filter (fun c => t2 <=? funded_ratio c) l1).
Proof.
  intros data t1 t2 l1 Ht. unfold equity_results.
  destruct (dict_get data (str "success") JNull) as [s|]; [|discriminate].
  cbn [rbind]. destruct (truthy s); [|intros H; now injection H as <-].
  destruct (dict_get data (str "data") JNull) as [p|]; [|discriminate].
  cbn [rbind]. destruct (truthy p); [|intros H; now injection H as <-].
  destruct (getitem data (str "data")) as [d|]; [|discriminate].
  cbn [rbind].
  destruct (dict_get d (str "children") (JArr [])) as [ch|]; [|discriminate].
  cbn [rbind]. destruct (iterate ch) as [items|]; [|discriminate].
  cbn [rbind]. intros H.
  apply (equity_loop_raise_threshold t1 t2 items [] l1 Ht H).
Qed.

Lemma raising_threshold_only_removes_witness :
  0 <= 60
  /\ equity_results (equity_reply [entry_a; entry_c; entry_b]) 60
     = Ok [record_c].
Proof.
  split; [discriminate|].
  apply (raising_threshold_only_removes
           (equity_reply [entry_a; entry_c; entry_b]) 0 60
           [record_a; record_c; record_b]).
  - discriminate.
  - vm_compute. reflexivity.
Defined.

(** X5: one child that cannot be read discards the whole response: when the
    loop body raises on a child, the query raises that exception, also when
    the children before it were read and kept. *)
Theorem malformed_child_discards_all :
  forall (threshold : Z) (before : list json) (c : json) (after : list json)
         (acc : list child) (e : exn),
    Forall (fun x => exists r, equity_loop_body threshold x = Ok r) before ->
    equity_loop_body threshold c = Raise e ->
    equity_loop threshold (before ++ c :: after) acc = Raise e.
Proof.
  intros threshold before c after acc e Hb Hc. revert acc.
  induction Hb as [|x before [r Hx] _ IH]; intros acc.
  - cbn [app equity_loop]. now rewrite Hc.
  - cbn [app equity_loop]. rewrite Hx. cbn [rbind]. apply IH.
Qed.

Lemma malformed_child_discards_all_witness :
  equity_loop 0 ([entry_a; entry_b] ++ entry_two_dots :: [entry_c]) []
  = Raise ValueError.
Proof.
  apply (malformed_child_discards_all 0 [entry_a; entry_b] entry_two_dots
           [entry_c] [] ValueError).
  - repeat constructor; eexists; vm_compute; reflexivity.
  - vm_compute. reflexivity.
Defined.

Lemma round_binary64_nonneg n d z :
  0 <= n -> 0 < d -> py_int (round_binary64 n d) = Ok z -> 0 <= z.
Proof.
  intros Hn Hd. unfold round_binary64.
  destruct (n =? 0); [cbn; intros H; injection H as <-; lia|].
  set (e := binary64_exponent n d).
  destruct (scale n d e) as [num den] eqn:S.
  assert (Hs : 0 <= num /\ 0 < den).
  { unfold scale in S. destruct (0 <=? e) eqn:E; injection S as <- <-.
    - apply Z.leb_le in E. split; [lia|].
      apply Z.mul_pos_pos; [lia|]. apply Z.pow_pos_nonneg; lia.
    - apply Z.leb_gt in E. split; [|lia].
      apply Z.mul_nonneg_nonneg; [lia|]. apply Z.pow_nonneg. lia. }
  destruct (round_half_even_bounds num den) as [Hb _]; try tauto.
  assert (Hm : 0 <= round_half_even num den).
  { assert (0 <= num / den) by (apply Z.div_pos; tauto). lia. }
  destruct ((971 <? e) || ((e =? 971) && (round_half_even num den =? 2 ^ 53)));
    [discriminate|].
  unfold py_int. intros H. injection H as <-.
  destruct (0 <=? e) eqn:E.
  - apply Z.leb_le in E. apply Z.mul_nonneg_nonneg; [lia|].
    apply Z.pow_nonneg. lia.
  - apply Z.leb_gt in E. apply Z.quot_pos; [lia|].
    apply Z.pow_pos_nonneg; lia.
Qed.

Lemma py_float_int_nonneg s x z :
  py_float s = Ok x -> py_int x = Ok z -> 0 <= z.
Proof.
  unfold py_float. destruct (split_dot s) as [int_part rest].
  set (frac := match rest with Some f => f | None => [] end).
  destruct (forallb is_decimal int_part) eqn:Hi; [|discriminate].
  destruct (forallb is_decimal frac) eqn:Hf; [|discriminate].
  cbn [andb].
  destruct (negb (Nat.eqb (List.length (int_part ++ frac)) 0)); [|discriminate].
  intros H. injection H as <-. apply round_binary64_nonneg.
  - apply digits_val_bounds.
  - apply Z.pow_pos_nonneg; lia.
Qed.

(** X6: no child is produced with a negative ownership.  (Nothing bounds it
    from above: a ratio of 150 percent is kept as 150.) *)
Theorem ownership_never_negative :
  forall (threshold : Z) (c : json) (x : child),
    equity_loop_body threshold c = Ok (Some x) -> 0 <= funded_ratio x.
Proof.
  intros threshold c x. unfold equity_loop_body.
  destruct (dict_get c (str "fundedRatio") (JStr [])) as [v|]; [|discriminate].
  cbn [rbind]. destruct (str_replace v c_percent) as [s|]; [|discriminate].
  cbn [rbind]. destruct (isdigit (remove_char c_dot s)); [|discriminate].
  destruct (py_float s) as [f|] eqn:Ef; [|discriminate].
  cbn [rbind]. destruct (py_int f) as [ratio|] eqn:Ei; [|discriminate].
  cbn [rbind]. destruct (threshold <=? ratio); [|discriminate].
  destruct (getitem c (str "entname")) as [n|]; [|discriminate].
  destruct (getitem c (str "entid")) as [i|]; [|discriminate].
  cbn [rbind]. intros H. injection H as <-. cbn [funded_ratio].
  eapply py_float_int_nonneg; eassumption.
Qed.

Lemma ownership_never_negative_witness :
  0 <= funded_ratio (mk_child (JStr (str "A")) (JStr (str "1")) 150 None).
Proof.
  apply (ownership_never_negative (-5)
           (child_json (JStr (str "A")) (JStr (str "1")) (JStr (str "150%")))).
  vm_compute. reflexivity.
Defined.

(** X7: a child without the key ["fundedRatio"] is skipped without looking
    at its other fields; a child whose ["fundedRatio"] is not a string, and
    a child that is not a dict, raise AttributeError. *)
Theorem funded_ratio_field_edges :
  forall (threshold : Z),
    (forall kvs,
        assoc (str "fundedRatio") kvs = None ->
        equity_loop_body threshold (JObj kvs) = Ok None)
    /\ (forall kvs v,
           assoc (str "fundedRatio") kvs = Some v ->
           (forall s, v <> JStr s) ->
           equity_loop_body threshold (JObj kvs) = Raise AttributeError)
    /\ (forall c,
           (forall kvs, c <> JObj kvs) ->
           equity_loop_body threshold c = Raise AttributeError).
Proof.
  intros threshold. split; [|split].
  - intros kvs H. unfold equity_loop_body, dict_get. rewrite H. reflexivity.
  - intros kvs v H Hv. unfold equity_loop_body, dict_get. rewrite H.
    cbn [rbind]. destruct v; try reflexivity. now elim (Hv s).
  - intros c Hc. unfold equity_loop_body, dict_get.
    destruct c; try reflexivity. now elim (Hc kvs).
Qed.

Lemma funded_ratio_field_edges_witness :
  equity_loop_body 0 (JObj [(str "entid", JStr (str "1"))]) = Ok None
  /\ equity_loop_body 0
       (child_json (JStr (str "A")) (JStr (str "1")) (JInt 50))
     = Raise AttributeError.
Proof.
  destruct (funded_ratio_field_edges 0) as (H1 & H2 & _). split.
  - apply H1. reflexivity.
  - apply (H2 _ (JInt 50)); [reflexivity|discriminate].
Defined.

(** X8: the graph query returns no child, and does not raise, when its
    request fails and when the response is a dict whose ["success"] is
    missing or falsy, whose ["data"] is missing or falsy, or whose data is
    a dict without children; the four cases cannot be told apart from the
    result. *)
Theorem equity_query_empty_cases :
  forall (w : world) (ent_id : json) (cookie : pystr) (threshold : Z)
         (st : state),
    (post_json w (List.length (log st)) (PostEquity ent_id cookie) = None
     \/ exists kvs,
          post_json w (List.length (log st)) (PostEquity ent_id cookie)
          = Some (JObj kvs)
          /\ (truthy (field kvs (str "success")) = false
              \/ truthy (field kvs (str "data")) = false
              \/ exists dk,
                   field kvs (str "data") = JObj dk
                   /\ (assoc (str "children") dk = None
                       \/ assoc (str "children") dk = Some (JArr [])))) ->
    fst (query_equity_investment w ent_id cookie threshold st) = Ok [].
Proof.
  intros w ent_id cookie threshold st H.
  unfold query_equity_investment. rewrite bind_run. unfold http_post at 1.
  destruct H as [H|(kvs & H & Hc)]; rewrite H; [reflexivity|].
  unfold lift. cbn [fst]. unfold equity_results, dict_get.
  fold (field kvs (str "success")).
  replace (match assoc (str "success") kvs with
           | Some x => Ok x
           | None => Ok JNull
           end) with (Ok (field kvs (str "success")))
    by (unfold field; now destruct (assoc (str "success") kvs)).
  cbn [rbind].
  destruct (truthy (field kvs (str "success"))) eqn:Ts; [|reflexivity].
  replace (match assoc (str "data") kvs with
           | Some x => Ok x
           | None => Ok JNull
           end) with (Ok (field kvs (str "data")))
    by (unfold field; now destruct (assoc (str "data") kvs)).
  cbn [rbind].
  destruct (truthy (field kvs (str "data"))) eqn:Td; [|reflexivity].
  destruct Hc as [Hc|[Hc|(dk & Hd & Hch)]]; try discriminate.
  assert (Hg : getitem (JObj kvs) (str "data") = Ok (JObj dk)).
  { unfold getitem, field in *. destruct (assoc (str "data") kvs) as [v|].
    - now subst v.
    - discriminate. }
  rewrite Hg. cbn [rbind].
  destruct Hch as [Hn|Hn]; rewrite Hn; reflexivity.
Qed.

Lemma equity_query_empty_cases_witness :
  fst (query_equity_investment (registry []) (JStr (str "0")) (str "c") 0
         initial_state)
  = Ok [].
Proof.
  apply equity_query_empty_cases. right.
  exists [(str "success", JBool true);
          (str "data", JObj [(str "children", JArr [])])].
  split; [reflexivity|]. right. right.
  exists [(str "children", JArr [])]. split; [reflexivity|].
  right. reflexivity.
Defined.

(** ** The website extractor *)





(** X10: a failed lookup is remembered like a successful one.  When the
    page request of an entity fails, the extractor returns None and caches
    it; a later call for the same entity, with fewer than 128 extractor
    calls in between, returns None again without trying the request
    again. *)
Theorem failed_lookup_is_memoized :
  forall (w : world) (n i cookie : pystr) (calls : list call) (st : state),
    existsb is_surrogate n = false ->
    cache_find (JStr n, JStr i, cookie) (cache st) = None ->
    get_text w (List.length (log st)) (GetPage n (JStr i) cookie) = None ->
    (website_calls calls < maxsize)%nat ->
    fst (get_official_website w (JStr n) (JStr i) cookie st) = Ok None
    /\ fst (get_official_website w (JStr n) (JStr i) cookie
              (run_calls w calls
                 (snd (get_official_website w (JStr n) (JStr i) cookie st))))
       = Ok None
    /\ log (snd (get_official_website w (JStr n) (JStr i) cookie
                   (run_calls w calls
                      (snd (get_official_website w (JStr n) (JStr i) cookie
                              st)))))
       = log (run_calls w calls
                (snd (get_official_website w (JStr n) (JStr i) cookie st))).
Proof.
  intros w n i cookie calls st Hn Hmiss Hfail Hcalls.
  assert (Hfirst : fst (get_official_website w (JStr n) (JStr i) cookie st)
                   = Ok None).
  { unfold get_official_website. cbn [hashable andb negb]. rewrite Hmiss.
    unfold get_official_website_uncached. rewrite bind_run.
    unfold lift at 1, quote. rewrite Hn. rewrite bind_run.
    unfold http_get at 1. rewrite Hfail. reflexivity. }
  destruct (first_call_hit w n i cookie st Hn) as (site & Hs & Hh).
  rewrite Hfirst in Hs. injection Hs as <-.
  destruct (hit_after_calls w n i cookie calls _ 0%nat None Hn Hh ltac:(lia))
    as (p' & Hh2 & _).
  destruct (cached_call w n i cookie _ p' None Hh2) as (Hsecond & Hlog).
  repeat split; assumption.
Qed.

Lemma failed_lookup_is_memoized_witness :
  fst (get_official_website (registry []) (JStr (str "A")) (JStr (str "1"))
         (str "c")
         (run_calls (registry [])
            [CallWebsite (JStr (str "B")) (JStr (str "2")) (str "c")]
            (snd (get_official_website (registry []) (JStr (str "A"))
                    (JStr (str "1")) (str "c") initial_state))))
  = Ok None.
Proof.
  apply (failed_lookup_is_memoized (registry []) (str "A") (str "1") (str "c")
           [CallWebsite (JStr (str "B")) (JStr (str "2")) (str "c")]
           initial_state).
  - reflexivity.
  - reflexivity.
  - reflexivity.
  - apply Nat.ltb_lt. reflexivity.
Defined.

Lemma normalize_href_not_relative href :
  startswith (normalize_href href) (str "//") = false.
Proof.
  unfold normalize_href.
  destruct (startswith href (str "//")) eqn:E; [reflexivity|exact E].
Qed.

Lemma Forall_removelast {A} (P : A -> Prop) l :
  Forall P l -> Forall P (removelast l).
Proof.
  induction 1 as [|x l Hx Hl IH]; [constructor|].
  destruct l as [|y l]; [constructor|].
  change (removelast (x :: y :: l)) with (x :: removelast (y :: l)).
  now constructor.
Qed.

(** X11: the extractor never hands out an address that starts with two
    slashes.  The property holds of every website it returns and of every
    website it caches, so it holds throughout a run that starts with an
    empty cache; normalizing an address twice changes nothing more. *)
Theorem website_never_protocol_relative :
  forall (w : world) (n i : json) (c : pystr) (st : state),
    no_protocol_relative (cache st) ->
    no_protocol_relative (cache (snd (get_official_website w n i c st)))
    /\ (forall site,
           fst (get_official_website w n i c st) = Ok (Some site) ->
           startswith site (str "//") = false)
    /\ (forall href,
           normalize_href (normalize_href href) = normalize_href href).
Proof.
  intros w n i c st Hc.
  assert (Hidem : forall href,
             normalize_href (normalize_href href) = normalize_href href).
  { intros href. unfold normalize_href at 1.
    now rewrite normalize_href_not_relative. }
  unfold get_official_website.
  destruct (negb (hashable n && hashable i));
    [cbn [fst snd]; repeat split; [exact Hc|discriminate|exact Hidem]|].
  destruct (cache_find (n, i, c) (cache st)) as [[entry rest]|] eqn:F.
  - apply cache_find_some in F as (_ & _ & pre & post & Hcache & -> & _).
    unfold no_protocol_relative in *. rewrite Hcache in Hc.
    apply Forall_app in Hc as [Hpre Hpost].
    inversion Hpost as [|? ? He Hpost']; subst.
    cbn [fst snd cache]. split; [|split; [|exact Hidem]].
    + constructor; [exact He|]. apply Forall_app. now split.
    + intros site Hs. injection Hs as Hs. now rewrite Hs in He.
  - destruct (get_official_website_uncached_frame w n i c st) as (Hcs & _).
    assert (Hsite : forall site,
               fst (get_official_website_uncached w n i c st) = Ok (Some site)
               -> startswith site (str "//") = false).
    { intros site. unfold get_official_website_uncached. rewrite bind_run.
      unfold lift at 1. destruct (quote n) as [s|]; [|discriminate].
      rewrite bind_run. unfold http_get at 1, read_page.
      destruct (get_text w (List.length (log st)) (GetPage s i c)) as [html|];
        [|discriminate].
      destruct (find html marker =? -1); [discriminate|].
      destruct (soup_find_a_href w (slice html (find html marker) 1000))
        as [[href|]|e]; try discriminate.
      cbn [fst]. unfold ret. cbn [fst]. intros H. injection H as <-.
      apply normalize_href_not_relative. }
    destruct (get_official_website_uncached w n i c st) as [[site|e] st1];
      cbn [fst snd cache] in *; [|repeat split; [congruence|discriminate|exact Hidem]].
    split; [|split; [|exact Hidem]].
    + rewrite Hcs. unfold no_protocol_relative, cache_store in *.
      assert (He : match site with
                   | Some s => startswith s (str "//") = false
                   | None => True
                   end)
        by (destruct site as [s|]; [now apply Hsite|exact I]).
      destruct (List.length (cache st) <? maxsize)%nat; constructor;
        try exact He; [exact Hc|now apply Forall_removelast].
    + intros s H. apply Hsite. exact H.
Qed.

Lemma website_never_protocol_relative_witness :
  no_protocol_relative (cache initial_state)
  /\ startswith [0] (str "//") = false.
Proof.
  assert (H : no_protocol_relative (cache initial_state)) by constructor.
  split; [exact H|].
  apply (proj1 (proj2 (website_never_protocol_relative changing_site
                         (company 0) (JStr (str "id")) (str "c")
                         initial_state H))).
  vm_compute. reflexivity.
Defined.

Lemma find_from_found sub : forall s i,
  find_from i s sub <> -1 \/ 0 <= i ->
  find_from i s sub = -1
  \/ exists k,
       find_from i s sub = i + Z.of_nat k
       /\ startswith (skipn k s) sub = true.
Proof.
  induction s as [|c s IH]; intros i Hi.
  - cbn [find_from]. destruct (startswith [] sub) eqn:E.
    + right. exists 0%nat. split; [lia|exact E].
    + now left.
  - cbn [find_from]. destruct (startswith (c :: s) sub) eqn:E.
    + right. exists 0%nat. split; [lia|exact E].
    + destruct (IH (i + 1)) as [H|(k & Hk & Hs)].
      * destruct (Z.eq_dec (find_from (i + 1) s sub) (-1)) as [E1|E1];
          [|now left].
        right. destruct Hi as [Hi|Hi]; [|lia].
        cbn [find_from] in Hi. rewrite E in Hi. congruence.
      * now left.
      * right. exists (S k). split; [lia|exact Hs].
Qed.

Lemma startswith_firstn p : forall s n,
  startswith s p = true -> (List.length p <= n)%nat ->
  startswith (firstn n s) p = true.
Proof.
  induction p as [|a p IH]; intros s n H Hn; [reflexivity|].
  destruct s as [|b s]; [discriminate|].
  destruct n as [|n]; [cbn in Hn; lia|].
  cbn [startswith firstn] in *. apply andb_true_iff in H as [Hab Hs].
  rewrite Hab. cbn [andb]. apply IH; [exact Hs|cbn in Hn; lia].
Qed.

Lemma window_is_window html :
  find html marker <> -1 ->
  is_window (slice html (find html marker) 1000) = true.
Proof.
  intros Hf. unfold find in *.
  destruct (find_from_found marker html 0 (or_intror (Z.le_refl 0)))
    as [H|(k & Hk & Hs)]; [congruence|].
  unfold is_window, slice. rewrite Hk.
  replace (Z.to_nat (0 + Z.of_nat k)) with k by lia.
  apply andb_true_iff. split.
  - apply startswith_firstn; [exact Hs|]. cbn. lia.
  - apply Nat.leb_le. apply firstn_le_length.
Qed.

(** X12: the page parser is consulted on the window only: a slice of the
    page that starts with the marker and has at most 1000 characters.  Two
    parsers that agree on all such windows give the same extractor. *)
Theorem parser_sees_only_the_window :
  forall (w : world) (parser : pystr -> result (option pystr))
         (n i : json) (c : pystr) (st : state),
    (forall html,
        is_window html = true -> soup_find_a_href w html = parser html) ->
    get_official_website w n i c st
    = get_official_website (mk_world (post_json w) (get_text w) parser)
        n i c st.
Proof.
  intros w parser n i c st Hp.
  assert (Hu : get_official_website_uncached w n i c st
               = get_official_website_uncached
                   (mk_world (post_json w) (get_text w) parser) n i c st).
  { unfold get_official_website_uncached. rewrite !bind_run.
    unfold lift. destruct (quote n) as [s|]; [|reflexivity].
    rewrite !bind_run. unfold http_get, read_page. cbn [get_text].
    destruct (get_text w (List.length (log st)) (GetPage s i c)) as [html|];
      [|reflexivity].
    destruct (Z.eqb_spec (find html marker) (-1)) as [E|E]; [reflexivity|].
    cbn [soup_find_a_href]. now rewrite (Hp _ (window_is_window html E)). }
  unfold get_official_website. now rewrite Hu.
Qed.

Lemma parser_sees_only_the_window_witness :
  get_official_website changing_site (company 0) (JStr (str "id")) (str "c")
    initial_state
  = get_official_website
      (mk_world (post_json changing_site) (get_text changing_site)
         (fun html => if is_window html
                      then soup_find_a_href changing_site html
                      else Raise OtherException))
      (company 0) (JStr (str "id")) (str "c") initial_state.
Proof.
  apply (parser_sees_only_the_window changing_site).
  intros html H. now rewrite H.
Defined.

(** X13: for a name it can take, the extractor returns None when the page
    request fails, when the page does not hold the marker (whatever the
    parser would say), when the window holds no anchor with an address, and
    when the parser raises. *)
Theorem no_website_cases :
  forall (w : world) (n : json) (s : pystr) (i : json) (c : pystr)
         (st : state),
    quote n = Ok s ->
    (get_text w (List.length (log st)) (GetPage s i c) = None
     \/ exists html,
          get_text w (List.length (log st)) (GetPage s i c) = Some html
          /\ (find html marker = -1
              \/ soup_find_a_href w (slice html (find html marker) 1000)
                 = Ok None
              \/ exists e,
                   soup_find_a_href w (slice html (find html marker) 1000)
                   = Raise e)) ->
    fst (get_official_website_uncached w n i c st) = Ok None.
Proof.
  intros w n s i c st Hq H.
  unfold get_official_website_uncached. rewrite bind_run.
  unfold lift at 1. rewrite Hq, bind_run. unfold http_get at 1, read_page.
  destruct H as [H|(html & H & Hc)]; rewrite H; [reflexivity|].
  destruct (Z.eqb_spec (find html marker) (-1)) as [E|E]; [reflexivity|].
  destruct Hc as [Hc|[Hc|(e & Hc)]]; [congruence| |]; rewrite Hc; reflexivity.
Qed.

Lemma no_website_cases_witness :
  fst (get_official_website_uncached (registry []) (JStr (str "A"))
         (JStr (str "1")) (str "c") initial_state)
  = Ok None.
Proof.
  apply (no_website_cases (registry []) (JStr (str "A")) (str "A")
           (JStr (str "1")) (str "c") initial_state).
  - reflexivity.
  - left. reflexivity.
Defined.

(** ** The fan-out *)






(** X14: with a worker count of zero or less, a lookup whose graph query
    returned at least one child raises ValueError when the pool is created:
    the count of children is announced, no page of a child is requested and
    the children found are lost. *)
Theorem no_workers_no_fetch :
  forall (w : world) (schedule : scheduler) (cookie : pystr)
         (parent parent_id : json) (threshold max_workers : Z)
         (c : child) (cc : list child) (st st1 : state),
    0 <= threshold <= 100 ->
    max_workers <= 0 ->
    query_equity_investment w parent_id cookie threshold st
    = (Ok (c :: cc), st1) ->
    fetch_equity_investments w schedule cookie parent parent_id
      (Some threshold) max_workers st
    = (Raise ValueError,
       mk_state (log st1) (cache st1)
                (console st1 ++ [MsgChildrenFound (S (List.length cc))])).
Proof.
  intros w schedule cookie parent parent_id threshold max_workers c cc st st1
    Ht Hw Hq.
  unfold fetch_equity_investments.
  replace ((0 <=? threshold) && (threshold <=? 100)) with true
    by (symmetry; apply andb_true_iff; split; apply Z.leb_le; lia).
  rewrite bind_run, Hq. unfold fetch_children_websites.
  rewrite !bind_run, print_run. cbn [unprintable].
  replace (max_workers <=? 0) with true by (symmetry; apply Z.leb_le; lia).
  reflexivity.
Qed.

Lemma no_workers_no_fetch_witness :
  fst (fetch_equity_investments (registry [entry_a]) in_order (str "c")
         (JStr (str "P")) (JStr (str "0")) (Some 0) 0 initial_state)
  = Raise ValueError.
Proof.
  rewrite (no_workers_no_fetch (registry [entry_a]) in_order (str "c")
             (JStr (str "P")) (JStr (str "0")) 0 0 record_a []
             initial_state
             (mk_state [PostEquity (JStr (str "0")) (str "c")] [] [])).
  - reflexivity.
  - split; discriminate.
  - discriminate.
  - vm_compute. reflexivity.
Defined.

(** ** The report *)

Lemma result_rows_length r :
  List.length (result_rows r) = S (List.length (equity_investments r)).
Proof. unfold result_rows. cbn [List.length]. now rewrite length_map. Qed.

Lemma flat_map_rows_length results :
  List.length (flat_map result_rows results)
  = (List.length results + total_children results)%nat.
Proof.
  induction results as [|r results IH]; [reflexivity|].
  change (flat_map result_rows (r :: results))
    with (result_rows r ++ flat_map result_rows results).
  rewrite length_app, result_rows_length, IH.
  change (total_children (r :: results))
    with (List.length (equity_investments r) + total_children results)%nat.
  cbn [List.length]. lia.
Qed.

(** X16: the report starts with the header; it has one row per result and
    one per child besides; every row has three cells; and the rows of a
    longer run are those of the shorter run followed by the rows of the
    further results. *)
Theorem report_shape :
  forall (results : list lookup_result),
    hd_error (save_to_csv results) = Some fieldnames
    /\ List.length (save_to_csv results)
       = (1 + List.length results + total_children results)%nat
    /\ Forall (fun cells => List.length cells = 3%nat) (save_to_csv results)
    /\ (forall more,
           save_to_csv (results ++ more)
           = save_to_csv results ++ flat_map result_rows more).
Proof.
  intros results. split; [reflexivity|]. split; [|split].
  - unfold save_to_csv. cbn [List.length].
    rewrite flat_map_rows_length. lia.
  - unfold save_to_csv. constructor; [reflexivity|].
    apply Forall_flat_map. apply Forall_forall. intros r _.
    unfold result_rows. constructor; [reflexivity|].
    apply Forall_map. apply Forall_forall. intros c _. reflexivity.
  - intros more. unfold save_to_csv. now rewrite flat_map_app.
Qed.

(** ** The main loop *)

Lemma sends_no_search_refl st : sends_no_search st st.
Proof. exists []. now rewrite app_nil_r. Qed.

Lemma sends_no_search_trans st1 st2 st3 :
  sends_no_search st1 st2 -> sends_no_search st2 st3 ->
  sends_no_search st1 st3.
Proof.
  intros (r1 & H1 & P1) (r2 & H2 & P2). exists (r1 ++ r2).
  rewrite H2, H1, app_assoc. split; [reflexivity|].
  now rewrite forallb_app, P1, P2.
Qed.

Lemma sends_no_search_log st st' :
  log st' = log st -> sends_no_search st st'.
Proof. intros H. exists []. now rewrite app_nil_r. Qed.

Lemma get_official_website_no_search w n i c st :
  sends_no_search st (snd (get_official_website w n i c st)).
Proof.
  destruct (get_official_website_log w n i c st) as [H|(s & _ & H)].
  - now apply sends_no_search_log.
  - exists [GetPage s i c]. now split.
Qed.

Lemma run_pool_no_search w cookie max_workers picks children st :
  sends_no_search st (snd (run_pool w cookie max_workers picks children st)).
Proof.
  destruct (run_pool_frame w cookie max_workers picks children st)
    as ((reqs & H & P & _) & _).
  exists reqs. split; [exact H|].
  apply forallb_forall. intros r Hr. rewrite Forall_forall in P.
  specialize (P r Hr). now destruct r.
Qed.

Lemma fetch_children_websites_no_search w schedule cookie parent threshold
    max_workers cc st :
  sends_no_search st
    (snd (fetch_children_websites w schedule cookie parent threshold
            max_workers cc st)).
Proof.
  destruct (Z_lt_le_dec 0 max_workers) as [Hw|Hw].
  - destruct (fetch_children_websites_run w schedule cookie parent threshold
                max_workers cc st Hw) as (st' & Hl & _ & _ & H).
    assert (Hs : snd (fetch_children_websites w schedule cookie parent
                        threshold max_workers cc st) = st')
      by (destruct H as [E|(_ & E)]; now rewrite E).
    rewrite Hs.
    eapply sends_no_search_trans; [|apply sends_no_search_log; exact Hl].
    eapply sends_no_search_trans; [|apply run_pool_no_search].
    now apply sends_no_search_log.
  - unfold fetch_children_websites. rewrite !bind_run, print_run.
    cbn [unprintable].
    replace (max_workers <=? 0) with true by (symmetry; apply Z.leb_le; lia).
    now apply sends_no_search_log.
Qed.

Lemma fetch_equity_investments_no_search w schedule cookie parent parent_id
    equity_threshold max_workers st :
  sends_no_search st
    (snd (fetch_equity_investments w schedule cookie parent parent_id
            equity_threshold max_workers st)).
Proof.
  unfold fetch_equity_investments.
  destruct equity_threshold as [threshold|]; [|apply sends_no_search_refl].
  destruct ((0 <=? threshold) && (threshold <=? 100));
    [|apply sends_no_search_refl].
  rewrite bind_run.
  destruct (query_equity_investment_frame w parent_id cookie threshold st)
    as (Hl & _).
  destruct (query_equity_investment w parent_id cookie threshold st)
    as [[cc|e] st1]; cbn [snd] in Hl.
  - assert (Hq : sends_no_search st st1)
      by (exists [PostEquity parent_id cookie]; now split).
    destruct cc as [|c cc]; [exact Hq|].
    eapply sends_no_search_trans; [exact Hq|].
    apply fetch_children_websites_no_search.
  - exists [PostEquity parent_id cookie]. now split.
Qed.

(** Every lookup sends its search request first and no other search. *)
Lemma fetch_official_website_searches_once w schedule search_key cookie
    equity_threshold max_workers st :
  filter is_search_request
    (log (snd (fetch_official_website w schedule search_key cookie
                 equity_threshold max_workers st)))
  = filter is_search_request (log st) ++ [PostSearch search_key cookie].
Proof.
  assert (Hns : forall s s', sends_no_search s s' ->
                  filter is_search_request (log s')
                  = filter is_search_request (log s)).
  { intros s s' (reqs & H & P). rewrite H, filter_app.
    replace (filter is_search_request reqs) with (@nil request);
      [apply app_nil_r|].
    symmetry. clear H. induction reqs as [|r reqs IH]; [reflexivity|].
    cbn [forallb filter] in *. apply andb_true_iff in P as [Pr P].
    destruct (is_search_request r); [discriminate|]. now apply IH. }
  unfold fetch_official_website. rewrite bind_run.
  destruct (get_ent_info_frame w search_key cookie st) as (Hl & _).
  assert (Hs : filter is_search_request
                 (log (snd (get_ent_info w search_key cookie st)))
               = filter is_search_request (log st)
                 ++ [PostSearch search_key cookie])
    by (rewrite Hl, filter_app; reflexivity).
  destruct (get_ent_info w search_key cookie st) as [[[[pn pid]|]|e] st1];
    cbn [snd] in *; [|exact Hs|exact Hs].
  rewrite bind_run.
  pose proof (get_official_website_no_search w pn pid cookie st1) as Hg.
  destruct (get_official_website w pn pid cookie st1) as [[site|e] st2];
    cbn [snd] in *; [|now rewrite (Hns _ _ Hg)].
  rewrite bind_run.
  pose proof (fetch_equity_investments_no_search w schedule cookie pn pid
                equity_threshold max_workers st2) as He.
  destruct (fetch_equity_investments w schedule cookie pn pid
              equity_threshold max_workers st2) as [[l|e] st3];
    cbn [snd] in *; unfold ret; cbn [snd];
    now rewrite (Hns _ _ He), (Hns _ _ Hg).
Qed.

(** X17: a run that reaches its end has one result per search key, after
    the results it started with, and has sent exactly one search request
    per key, in the order of the keys. *)
Theorem one_search_per_key_in_order :
  forall (w : world) (schedule : scheduler) (cookie : pystr)
         (equity threads : Z) (search_keys : list pystr)
         (all_results results : list lookup_result) (st st' : state),
    main_loop w schedule cookie equity threads search_keys all_results st
    = (Ok results, st') ->
    (exists new,
        results = all_results ++ new
        /\ List.length new = List.length search_keys)
    /\ filter is_search_request (log st')
       = filter is_search_request (log st)
         ++ map (fun k => PostSearch k cookie) search_keys.
Proof.
  intros w schedule cookie equity threads search_keys.
  induction search_keys as [|k keys IH]; intros all_results results st st' H.
  - cbn in H. injection H as <- <-. split.
    + exists []. now rewrite app_nil_r.
    + cbn. now rewrite app_nil_r.
  - cbn [main_loop] in H. apply bind_ok in H as (r & st1 & Hf & H).
    pose proof (fetch_official_website_searches_once w schedule k cookie
                  (Some equity) threads st) as Hs.
    rewrite Hf in Hs. cbn [snd] in Hs.
    destruct (IH _ _ _ _ H) as ((new & -> & Hn) & Hl). split.
    + exists (r :: new). rewrite <- app_assoc. split; [reflexivity|].
      cbn [List.length]. now rewrite Hn.
    + rewrite Hl, Hs, <- app_assoc. reflexivity.
Qed.

Lemma one_search_per_key_in_order_witness :
  filter is_search_request
    (log (snd (main_loop empty_registry in_order (str "c") 0 5
                 [str "k1"; str "k2"] [] initial_state)))
  = filter is_search_request (log initial_state)
    ++ map (fun k => PostSearch k (str "c")) [str "k1"; str "k2"].
Proof.
  apply (one_search_per_key_in_order empty_registry in_order (str "c") 0 5
           [str "k1"; str "k2"] []
           [mk_result JNull None []; mk_result JNull None []]
           initial_state).
  vm_compute. reflexivity.
Defined.

(** ** The entry point *)

Lemma lstrip_all_space s : forallb is_space s = true -> lstrip s = [].
Proof.
  induction s as [|c s IH]; [reflexivity|].
  cbn [forallb lstrip]. intros H. apply andb_true_iff in H as [Hc Hs].
  rewrite Hc. now apply IH.
Qed.

Lemma lstrip_head s c r : lstrip s = c :: r -> is_space c = false.
Proof.
  induction s as [|x s IH]; [discriminate|].
  cbn [lstrip]. destruct (is_space x) eqn:E; [exact IH|].
  intros H. now injection H as <- _.
Qed.

Lemma lstrip_suffix s : exists pre, s = pre ++ lstrip s.
Proof.
  induction s as [|c s [pre IH]]; [now exists []|].
  cbn [lstrip]. destruct (is_space c).
  - exists (c :: pre). cbn [app]. now rewrite <- IH.
  - now exists [].
Qed.

Lemma lstrip_fixed c r : is_space c = false -> lstrip (c :: r) = c :: r.
Proof. intros H. cbn [lstrip]. now rewrite H. Qed.

Lemma lstrip_snoc_space s x :
  is_space x = true ->
  lstrip (s ++ [x])
  = match lstrip s with
    | [] => []
    | _ :: _ => lstrip s ++ [x]
    end.
Proof.
  intros Hx. induction s as [|c s IH].
  - cbn. now rewrite Hx.
  - cbn [app lstrip]. destruct (is_space c); [exact IH|reflexivity].
Qed.

Lemma strip_snoc_space s x : is_space x = true -> strip (s ++ [x]) = strip s.
Proof.
  intros Hx. unfold strip. rewrite (lstrip_snoc_space _ _ Hx).
  destruct (lstrip s) as [|c r]; [reflexivity|].
  rewrite rev_app_distr. cbn [rev app]. cbn [lstrip]. now rewrite Hx.
Qed.

Lemma strip_incl s c : In c (strip s) -> In c s.
Proof.
  unfold strip. intros H. apply in_rev in H.
  destruct (lstrip_suffix (rev (lstrip s))) as [p1 H1].
  destruct (lstrip_suffix s) as [p2 H2].
  rewrite H2. apply in_or_app. right. apply in_rev. rewrite H1.
  apply in_or_app. now right.
Qed.

(** What [strip] returns has no blank at either end. *)
Lemma strip_ends s :
  strip s <> [] ->
  is_space (hd 0 (strip s)) = false /\ is_space (last (strip s) 0) = false.
Proof.
  unfold strip. intros Hne.
  destruct (lstrip (rev (lstrip s))) as [|c r] eqn:E; [now elim Hne|].
  pose proof (lstrip_head _ _ _ E) as Hc.
  destruct (lstrip_suffix (rev (lstrip s))) as [pre Hpre]. rewrite E in Hpre.
  apply (f_equal (@rev Z)) in Hpre. rewrite rev_involutive in Hpre.
  rewrite rev_app_distr in Hpre. split.
  - destruct (rev (c :: r)) as [|a t] eqn:Er.
    + apply (f_equal (@List.length Z)) in Er. rewrite length_rev in Er.
      discriminate.
    + cbn [hd]. cbn [app] in Hpre. eapply lstrip_head. exact Hpre.
  - cbn [rev]. now rewrite last_last.
Qed.

Lemma universal_newlines_cons c rest :
  universal_newlines (c :: rest)
  = if c =? 13 then
      match rest with
      | [] => [10]
      | d :: rest' =>
          if d =? 10 then 10 :: universal_newlines rest'
          else 10 :: universal_newlines rest
      end
    else c :: universal_newlines rest.
Proof.
  cbn [universal_newlines]. destruct (c =? 13); [|reflexivity].
  destruct rest as [|d rest']; [reflexivity|].
  destruct (Z.eqb_spec d 10) as [->|E]; [reflexivity|].
  destruct d as [|p|p]; try reflexivity.
  repeat (destruct p as [p|p|]; try reflexivity). now elim E.
Qed.

Lemma universal_newlines_no_cr s :
  Forall (fun c => c <> 13) (universal_newlines s).
Proof.
  assert (H : forall n s, (List.length s <= n)%nat ->
                          Forall (fun c => c <> 13) (universal_newlines s)).
  { clear s. induction n as [|n IH]; intros s Hn.
    - destruct s; [constructor|cbn in Hn; lia].
    - destruct s as [|c rest]; [constructor|]. cbn [List.length] in Hn.
      rewrite universal_newlines_cons. destruct (Z.eqb_spec c 13) as [E|E].
      + destruct rest as [|d rest']; [repeat constructor; discriminate|].
        cbn [List.length] in Hn.
        destruct (d =? 10); (constructor; [discriminate|]); apply IH;
          cbn [List.length]; lia.
      + constructor; [exact E|]. apply IH. lia. }
  apply (H (List.length s)). lia.
Qed.

Lemma universal_newlines_id s :
  Forall (fun c => c <> 13) s -> universal_newlines s = s.
Proof.
  induction 1 as [|c s Hc Hs IH]; [reflexivity|].
  rewrite universal_newlines_cons.
  replace (c =? 13) with false by (symmetry; now apply Z.eqb_neq).
  now rewrite IH.
Qed.

Lemma universal_newlines_space s :
  forallb is_space s = true -> forallb is_space (universal_newlines s) = true.
Proof.
  assert (H : forall n s, (List.length s <= n)%nat ->
                          forallb is_space s = true ->
                          forallb is_space (universal_newlines s) = true).
  { clear s. induction n as [|n IH]; intros s Hn Hs.
    - destruct s; [reflexivity|cbn in Hn; lia].
    - destruct s as [|c rest]; [reflexivity|]. cbn [List.length] in Hn.
      cbn [forallb] in Hs. apply andb_true_iff in Hs as [Hc Hr].
      rewrite universal_newlines_cons. destruct (c =? 13).
      + destruct rest as [|d rest']; [reflexivity|].
        cbn [List.length] in Hn. pose proof Hr as Hr0.
        cbn [forallb] in Hr. apply andb_true_iff in Hr as [Hd Hr'].
        destruct (d =? 10); cbn [forallb]; change (is_space 10) with true;
          cbn [andb]; apply IH; try assumption; cbn [List.length]; lia.
      + cbn [forallb]. rewrite Hc. apply IH; [lia|exact Hr]. }
  apply (H (List.length s)). lia.
Qed.

(** A line is a run of characters without line break, with or without a
    line feed after it. *)
Lemma lines_from_shape s : forall cur,
  Forall (fun c => c <> 10 /\ c <> 13) cur ->
  Forall (fun c => c <> 13) s ->
  Forall (fun line =>
            exists body,
              (line = body \/ line = body ++ [10])
              /\ Forall (fun c => c <> 10 /\ c <> 13) body)
         (lines_from cur s).
Proof.
  induction s as [|c s IH]; intros cur Hcur Hs.
  - cbn [lines_from]. destruct cur as [|x cur]; [constructor|].
    constructor; [|constructor]. exists (x :: cur). split; [now left|exact Hcur].
  - inversion Hs as [|? ? Hc Hs']; subst. cbn [lines_from].
    destruct (Z.eqb_spec c 10) as [E|E].
    + subst c. constructor.
      * exists cur. split; [now right|exact Hcur].
      * apply IH; [constructor|exact Hs'].
    + apply IH; [|exact Hs']. apply Forall_app. split; [exact Hcur|].
      constructor; [split; assumption|constructor].
Qed.

Lemma lines_from_space s : forall cur,
  forallb is_space cur = true -> forallb is_space s = true ->
  Forall (fun line => forallb is_space line = true) (lines_from cur s).
Proof.
  induction s as [|c s IH]; intros cur Hcur Hs.
  - cbn [lines_from]. destruct cur; repeat constructor. exact Hcur.
  - cbn [forallb] in Hs. apply andb_true_iff in Hs as [Hc Hs].
    assert (Hcc : forallb is_space (cur ++ [c]) = true)
      by (rewrite forallb_app, Hcur; cbn; now rewrite Hc).
    cbn [lines_from]. destruct (c =? 10).
    + constructor; [exact Hcc|]. now apply IH.
    + now apply IH.
Qed.

Lemma lines_from_line k : forall cur rest,
  Forall (fun c => c <> 10) k ->
  lines_from cur (k ++ 10 :: rest) = (cur ++ k ++ [10]) :: lines_from [] rest.
Proof.
  induction k as [|c k IH]; intros cur rest Hk.
  - reflexivity.
  - inversion Hk as [|? ? Hc Hk']; subst. cbn [app lines_from].
    replace (c =? 10) with false by (symmetry; now apply Z.eqb_neq).
    rewrite IH by exact Hk'. now rewrite <- app_assoc.
Qed.

Lemma clean_key_parts k :
  clean_key k = true ->
  k <> [] /\ is_space (hd 0 k) = false /\ is_space (last k 0) = false
  /\ Forall (fun c => c <> 10 /\ c <> 13) k.
Proof.
  unfold clean_key. intros H.
  apply andb_true_iff in H as [H Hn]. apply andb_true_iff in H as [H Hl].
  apply andb_true_iff in H as [Hne Hh].
  apply negb_true_iff in Hh, Hl. repeat split; try assumption.
  - destruct k; [discriminate|discriminate].
  - rewrite forallb_forall in Hn. apply Forall_forall. intros c Hc.
    specialize (Hn c Hc). unfold is_newline in Hn.
    apply negb_true_iff, orb_false_iff in Hn as [H10 H13].
    apply Z.eqb_neq in H10, H13. now split.
Qed.

Lemma strip_clean k : clean_key k = true -> strip k = k.
Proof.
  intros H. apply clean_key_parts in H as (Hne & Hh & Hl & _).
  unfold strip. destruct k as [|c r]; [now elim Hne|].
  cbn [hd] in Hh. rewrite (lstrip_fixed _ _ Hh).
  destruct (rev (c :: r)) as [|x t] eqn:E.
  - apply (f_equal (@List.length Z)) in E. rewrite length_rev in E.
    discriminate.
  - assert (Hx : is_space x = false).
    { apply (f_equal (@rev Z)) in E. rewrite rev_involutive in E.
      cbn [rev] in E. rewrite E, last_last in Hl. exact Hl. }
    rewrite (lstrip_fixed _ _ Hx), <- E. apply rev_involutive.
Qed.

(** X18: every search key read from a file is clean: it is not empty, has
    no blank at either end and no line break inside. *)
Theorem search_keys_are_clean :
  forall (content k : pystr),
    In k (read_search_keys content) -> clean_key k = true.
Proof.
  intros content k H. unfold read_search_keys in H.
  apply in_map_iff in H as (line & <- & Hin).
  apply filter_In in Hin as [Hin Hne].
  assert (Hnil : strip line <> [])
    by (destruct (strip line); [discriminate|discriminate]).
  destruct (strip_ends line Hnil) as [Hh Hl].
  unfold clean_key. rewrite Hne, Hh, Hl. cbn [negb andb].
  pose proof (lines_from_shape (universal_newlines content) []
                (Forall_nil _) (universal_newlines_no_cr content)) as Hshape.
  rewrite Forall_forall in Hshape.
  destruct (Hshape line Hin) as (body & Hb & Hbody).
  assert (Hs : strip line = strip body)
    by (destruct Hb as [->| ->]; [reflexivity|now apply strip_snoc_space]).
  rewrite Hs. apply forallb_forall. intros c Hc. apply strip_incl in Hc.
  rewrite Forall_forall in Hbody. destruct (Hbody c Hc) as [H10 H13].
  unfold is_newline. apply negb_true_iff, orb_false_iff.
  split; now apply Z.eqb_neq.
Qed.

Lemma search_keys_are_clean_witness :
  clean_key (str "b c") = true.
Proof.
  apply (search_keys_are_clean
           ([32; 32] ++ str "a" ++ [13; 10; 9] ++ str "b c" ++ [32; 10])).
  vm_compute. right. left. reflexivity.
Defined.

Lemma one_per_line_no_cr keys :
  Forall (fun k => clean_key k = true) keys ->
  Forall (fun c => c <> 13) (one_per_line keys).
Proof.
  induction 1 as [|k keys Hk _ IH]; [constructor|].
  unfold one_per_line. cbn [flat_map]. rewrite <- app_assoc.
  apply Forall_app. split.
  - apply clean_key_parts in Hk as (_ & _ & _ & Hk).
    eapply Forall_impl; [|exact Hk]. cbn. tauto.
  - constructor; [discriminate|exact IH].
Qed.

(** X19: a file that holds clean keys, one per line, is read back as
    exactly those keys, in order. *)
Theorem search_keys_round_trip :
  forall (keys : list pystr),
    Forall (fun k => clean_key k = true) keys ->
    read_search_keys (one_per_line keys) = keys.
Proof.
  intros keys Hkeys. unfold read_search_keys, readlines.
  rewrite (universal_newlines_id _ (one_per_line_no_cr _ Hkeys)).
  induction Hkeys as [|k keys Hk _ IH]; [reflexivity|].
  unfold one_per_line. cbn [flat_map]. rewrite <- app_assoc. cbn [app].
  pose proof (clean_key_parts _ Hk) as (Hne & _ & _ & Hch).
  rewrite lines_from_line
    by (eapply Forall_impl; [|exact Hch]; cbn; tauto).
  cbn [app filter].
  rewrite (strip_snoc_space k 10 eq_refl), (strip_clean _ Hk).
  destruct k as [|c r]; [now elim Hne|]. cbn [nonempty map].
  rewrite (strip_snoc_space (c :: r) 10 eq_refl), (strip_clean _ Hk).
  f_equal. exact IH.
Qed.

Lemma search_keys_round_trip_witness :
  read_search_keys (one_per_line [str "Acme Ltd"; str "B"])
  = [str "Acme Ltd"; str "B"].
Proof.
  apply search_keys_round_trip. repeat constructor.
Defined.

Lemma strip_all_space s : forallb is_space s = true -> strip s = [].
Proof. intros H. unfold strip. now rewrite (lstrip_all_space _ H). Qed.

Lemma blank_lines_no_key lines :
  Forall (fun line => forallb is_space line = true) lines ->
  map strip (filter (fun line => nonempty (strip line)) lines) = [].
Proof.
  induction 1 as [|line lines Hline _ IH]; [reflexivity|].
  cbn [filter]. rewrite (strip_all_space _ Hline). exact IH.
Qed.

Lemma read_search_keys_blank text :
  forallb is_space text = true -> read_search_keys text = [].
Proof.
  intros H. unfold read_search_keys, readlines. apply blank_lines_no_key.
  apply lines_from_space; [reflexivity|now apply universal_newlines_space].
Qed.

(** X20: when the key file is empty or holds nothing but blanks and line
    breaks, the run sends no request at all and its report is the header
    alone. *)
Theorem blank_file_header_only :
  forall (files : pystr -> option pystr) (w : world)
         (schedule : scheduler) (default_path : pystr)
         (a : arguments) (config text : pystr) (st : state),
    given (arg_file a) = true ->
    files (str "config.txt") = Some config ->
    files (arg_value (arg_file a)) = Some text ->
    forallb is_space text = true ->
    run files w schedule default_path a st
    = (Finished (if given (arg_output a) then arg_value (arg_output a)
                 else default_path, [fieldnames]), st).
Proof.
  intros files w schedule default_path a config text st Hf Hc Ht Hb.
  unfold run, startup. rewrite Hf, andb_false_r, Hc, Ht.
  rewrite (read_search_keys_blank _ Hb). reflexivity.
Qed.

Lemma blank_file_header_only_witness :
  run (fun path => Some [32; 10; 10])
    (registry []) in_order (str "res/0.csv")
    (mk_arguments None (Some (str "keys.txt")) 0 5 None) initial_state
  = (Finished (str "res/0.csv", [fieldnames]), initial_state).
Proof.
  apply (blank_file_header_only (fun path => Some [32; 10; 10])
           (registry []) in_order (str "res/0.csv")
           (mk_arguments None (Some (str "keys.txt")) 0 5 None)
           [32; 10; 10] [32; 10; 10] initial_state); reflexivity.
Defined.

(** X21: the program exits with status 1, before any request is sent, when
    neither a search key nor a key file is given (an empty string counts as
    not given), when the credential file is missing, and when the key file
    is missing. *)
Theorem startup_failure_exits_before_network :
  forall (files : pystr -> option pystr) (w : world)
         (schedule : scheduler) (default_path : pystr)
         (a : arguments) (st : state),
    (given (arg_search a) = false /\ given (arg_file a) = false)
    \/ files (str "config.txt") = None
    \/ (given (arg_file a) = true /\ files (arg_value (arg_file a)) = None) ->
    exists why, run files w schedule default_path a st = (Exited 1 why, st).
Proof.
  intros files w schedule default_path a st H. unfold run, startup.
  destruct (negb (given (arg_search a)) && negb (given (arg_file a))) eqn:E;
    [eexists; reflexivity|].
  destruct H as [[Hs Hf]|[H|[Hf H]]].
  - rewrite Hs, Hf in E. discriminate.
  - rewrite H. eexists. reflexivity.
  - destruct (files (str "config.txt")); [|eexists; reflexivity].
    rewrite Hf, H. eexists. reflexivity.
Qed.

Lemma startup_failure_exits_before_network_witness :
  exists why,
    run (fun _ => None) (registry []) in_order (str "res/0.csv")
      (mk_arguments (Some (str "Acme")) None 0 5 None) initial_state
    = (Exited 1 why, initial_state).
Proof.
  apply startup_failure_exits_before_network. right. left. reflexivity.
Defined.

(** X22: when a key file is given, the search key of the command line is
    not used: the run is the same whatever [-s] says.  Without a key file
    the search key is the only key, taken as typed. *)
Theorem file_argument_overrides_search :
  forall (files : pystr -> option pystr) (a : arguments),
    (given (arg_file a) = true ->
     forall s,
       startup files
         (mk_arguments s (arg_file a) (arg_equity a) (arg_threads a)
            (arg_output a))
       = startup files a)
    /\ (given (arg_file a) = false -> given (arg_search a) = true ->
        forall config,
          files (str "config.txt") = Some config ->
          startup files a
          = Finished (strip (universal_newlines config),
                      [arg_value (arg_search a)])).
Proof.
  intros files a. split.
  - intros Hf s. unfold startup. cbn [arg_search arg_file].
    rewrite Hf, !andb_false_r. reflexivity.
  - intros Hf Hs config Hc. unfold startup. rewrite Hf, Hs, Hc. reflexivity.
Qed.

Lemma file_argument_overrides_search_witness :
  startup (fun _ => Some (str "x"))
    (mk_arguments (Some (str "ignored")) (Some (str "keys.txt")) 0 5 None)
  = startup (fun _ => Some (str "x"))
      (mk_arguments None (Some (str "keys.txt")) 0 5 None).
Proof.
  apply (proj1 (file_argument_overrides_search (fun _ => Some (str "x"))
                  (mk_arguments None (Some (str "keys.txt")) 0 5 None))).
  reflexivity.
Defined.
